(** * MassVideoTranscriber: the batch pipeline of [text-from-video.py]

    A shallow embedding of the script's five functions ([extract_audio],
    [transcribe_audio], [process_videos], [process_audio_files], [main])
    over an explicit file system, with the external collaborators (ffprobe,
    ffmpeg, the Whisper model) as parameters, and the properties the
    specification states about them. *)

From Stdlib Require Import ZArith Ascii String List Lia.
From stdpp Require Import base option list strings gmap fin_maps.

Local Open Scope string_scope.
Local Open Scope list_scope.

(* stdpp freezes the reduction of string concatenation *)
#[local] Arguments String.append !s1 s2 / : simpl nomatch.

(** ** Python strings *)

Module PyStr.

(** Characters stand for code points below 256. [str.isspace] holds of
    the ASCII controls 9-13 and 28-31, the space, and of NEL (0x85) and
    the no-break space (0xA0). *)
Definition isspace (c : ascii) : bool :=
  let n := nat_of_ascii c in
  (((9 <=? n) && (n <=? 13)) || ((28 <=? n) && (n <=? 32))
   || (n =? 133) || (n =? 160))%nat.

Fixpoint lstrip (s : string) : string :=
  match s with
  | EmptyString => EmptyString
  | String c s' => if isspace c then lstrip s' else s
  end.

(** [rstrip] drops the trailing white space: a character is kept when it
    is not a space or when something that is kept follows it. *)
Fixpoint rstrip (s : string) : string :=
  match s with
  | EmptyString => EmptyString
  | String c s' =>
      match rstrip s' with
      | EmptyString => if isspace c then EmptyString else String c EmptyString
      | r => String c r
      end
  end.

(** [s.strip()] *)
Definition strip (s : string) : string := rstrip (lstrip s).

(** Truth value of a string: the empty string is false. *)
Definition truthy (s : string) : bool :=
  match s with EmptyString => false | String _ _ => true end.

Fixpoint all_space (s : string) : bool :=
  match s with
  | EmptyString => true
  | String c s' => isspace c && all_space s'
  end.

(** Index of the last full stop, [name.rfind('.')]; [None] is Python's -1. *)
Fixpoint rfind_dot (s : string) : option nat :=
  match s with
  | EmptyString => None
  | String c s' =>
      match rfind_dot s' with
      | Some i => Some (S i)
      | None => if Ascii.eqb c "." then Some 0 else None
      end
  end.

Fixpoint contains (c : ascii) (s : string) : bool :=
  match s with
  | EmptyString => false
  | String d s' => Ascii.eqb c d || contains c s'
  end.

(** [fnmatch] restricted to the wildcards [*] and [?] (no bracket
    expressions: the patterns of the script have none); the match is
    case sensitive, as on POSIX. *)
Fixpoint glob (pat : string) : string -> bool :=
  match pat with
  | EmptyString => fun s => match s with EmptyString => true | _ => false end
  | String p pat' =>
      if Ascii.eqb p "*" then
        fix star (s : string) : bool :=
          glob pat' s
          || match s with EmptyString => false | String _ s' => star s' end
      else if Ascii.eqb p "?" then
        fun s => match s with EmptyString => false | String _ s' => glob pat' s' end
      else
        fun s =>
          match s with
          | EmptyString => false
          | String c s' => Ascii.eqb p c && glob pat' s'
          end
  end.

(** A pattern without wildcards. *)
Fixpoint literal (pat : string) : bool :=
  match pat with
  | EmptyString => true
  | String c pat' => negb (Ascii.eqb c "*") && negb (Ascii.eqb c "?") && literal pat'
  end.

End PyStr.

(** ** pathlib: pure paths *)

(** A relative path is the list of its components, outermost first;
    [Path("videos")] is [["videos"]] and [[]] is the working directory. *)
Abbreviation path := (list string).

Module PurePath.

(** [p.name]: the last component, empty for the working directory. *)
Definition name (p : path) : string := default "" (last p).

(** [p.parent] *)
Definition parent (p : path) : path := removelast p.

(** [a / b] for a relative [b]. *)
Definition joinpath (a b : path) : path := a ++ b.

(** [str(p)] *)
Fixpoint str (p : path) : string :=
  match p with
  | [] => "."
  | [x] => x
  | x :: p' => x ++ "/" ++ str p'
  end.

(** [p.relative_to(root)]: [None] is the [ValueError] raised when [p] is
    not below [root]. *)
Fixpoint relative_to (p root : path) {struct root} : option path :=
  match root, p with
  | [], _ => Some p
  | r :: root', x :: p' => if decide (r = x) then relative_to p' root' else None
  | _ :: _, [] => None
  end.

(** [PurePath.suffix] of a name: the part from the last full stop, when
    that is neither the first nor the last character. *)
Definition suffix_of (nm : string) : string :=
  match PyStr.rfind_dot nm with
  | Some i =>
      if ((0 <? i) && (i <? String.length nm - 1))%nat
      then substring i (String.length nm - i) nm
      else ""
  | None => ""
  end.

Definition valid_suffix (suffix : string) : bool :=
  negb (PyStr.contains "/" suffix)
  && match suffix with
     | EmptyString => true
     | String c rest => Ascii.eqb c "." && PyStr.truthy rest
     end.

(** The new name computed by [with_suffix]. *)
Definition with_suffix_name (nm suffix : string) : string :=
  let old := suffix_of nm in
  if PyStr.truthy old
  then substring 0 (String.length nm - String.length old) nm ++ suffix
  else nm ++ suffix.

(** [p.with_suffix(suffix)]; [None] is the [ValueError] for an invalid
    suffix or an empty name. *)
Definition with_suffix (p : path) (suffix : string) : option path :=
  if negb (valid_suffix suffix) then None
  else if negb (PyStr.truthy (name p)) then None
  else Some (parent p ++ [with_suffix_name (name p) suffix]).

End PurePath.

(** ** Exceptions *)

Inductive os_error :=
| FileExistsError
| FileNotFoundError
| NotADirectoryError
| IsADirectoryError.

(** The exceptions the script can meet; all of them derive from
    [Exception]. [OtherError] is any other [Exception] an external
    collaborator raises (a [RuntimeError] of the model, say). *)
Inductive exn :=
| CalledProcessError (cmd : list string) (returncode : Z) (stdout stderr : string)
| ValueError (msg : string)
| OSError (kind : os_error) (filename : path)
| OtherError (what : string).

(** The classes named in the script's [except] clauses. *)
Inductive exn_class :=
| Cls_Exception
| Cls_CalledProcessError
| Cls_ValueError.

Definition isinstance (e : exn) (c : exn_class) : bool :=
  match c, e with
  | Cls_Exception, _ => true
  | Cls_CalledProcessError, CalledProcessError _ _ _ _ => true
  | Cls_ValueError, ValueError _ => true
  | _, _ => false
  end.

Inductive outcome (A : Type) :=
| Ret (a : A)
| Raise (e : exn).
Arguments Ret {A} a.
Arguments Raise {A} e.

Definition raised {A} (o : outcome A) : bool :=
  match o with Ret _ => false | Raise _ => true end.

(** ** The file system *)

(** What a path names: a regular file with its bytes, or a directory. *)
Inductive node :=
| File (data : string)
| Dir.

#[global] Instance node_eq_dec : EqDecision node.
Proof. solve_decision. Defined.

(** The file system below the working directory: a finite map from
    relative paths to nodes. The working directory itself, [[]], is always
    a directory and has no entry. *)
Abbreviation filesystem := (gmap path node).

Module Fs.

(** What [p] names, if anything ([os.stat]). *)
Definition stat (fs : filesystem) (p : path) : option node :=
  match p with
  | [] => Some Dir
  | _ => fs !! p
  end.

Definition is_dir (fs : filesystem) (p : path) : bool :=
  match stat fs p with Some Dir => true | _ => false end.

Definition exists_ (fs : filesystem) (p : path) : bool :=
  match stat fs p with Some _ => true | None => false end.

(** [p] lies strictly below [root]. *)
Definition is_below (root p : path) : bool :=
  match PurePath.relative_to p root with
  | Some (_ :: _) => true
  | _ => false
  end.

(** The entries [root.rglob(pattern)] yields: every entry (file or
    directory) strictly below [root] whose name matches the pattern. The
    order is the one of the finite map, which stands for the unspecified
    order of the directory listings. *)
Definition rglob_list (fs : filesystem) (root : path) (pattern : string) : list path :=
  (map_to_list
     (filter (λ kv : path * node,
                is_below root kv.1 && PyStr.glob pattern (PurePath.name kv.1) = true)
             fs)).*1.

(** Every well-formed file system keeps each entry inside a directory. *)
Definition wf (fs : filesystem) : Prop :=
  ∀ p, is_Some (fs !! p) → p ≠ [] ∧ is_dir fs (PurePath.parent p) = true.

(** [os.makedirs]-style walk for [mkdir(parents=True)]: going down from
    [base], a component that is a directory is entered, a missing one is
    created, and a regular file in the way is an error
    ([FileExistsError] for the last component, [NotADirectoryError]
    above it). *)
Fixpoint makedirs (target base rest : path) (fs : filesystem) : outcome filesystem :=
  match rest with
  | [] => Ret fs
  | x :: rest' =>
      let q := base ++ [x] in
      match fs !! q with
      | Some Dir => makedirs target q rest' fs
      | Some (File _) =>
          Raise (OSError (match rest' with
                          | [] => FileExistsError
                          | _ => NotADirectoryError
                          end) target)
      | None => makedirs target q rest' (<[q := Dir]> fs)
      end
  end.

(** [Path.mkdir(parents, exist_ok)]. An existing directory is accepted
    when [exist_ok] is set; an existing regular file never is. On an
    error the file system is left as it was. *)
Definition mkdir (p : path) (parents exist_ok : bool) (fs : filesystem)
  : outcome unit * filesystem :=
  match stat fs p with
  | Some Dir =>
      if exist_ok then (Ret tt, fs) else (Raise (OSError FileExistsError p), fs)
  | Some (File _) => (Raise (OSError FileExistsError p), fs)
  | None =>
      if parents then
        match makedirs p [] p fs with
        | Ret fs' => (Ret tt, fs')
        | Raise e => (Raise e, fs)
        end
      else
        match stat fs (PurePath.parent p) with
        | Some Dir => (Ret tt, <[p := Dir]> fs)
        | Some (File _) => (Raise (OSError NotADirectoryError p), fs)
        | None => (Raise (OSError FileNotFoundError p), fs)
        end
  end.

(** [open(p, "w")]: the parent must be a directory and [p] must not be
    one; the file is created or truncated. *)
Definition open_w (p : path) (fs : filesystem) : outcome unit * filesystem :=
  match stat fs (PurePath.parent p) with
  | None => (Raise (OSError FileNotFoundError p), fs)
  | Some (File _) => (Raise (OSError NotADirectoryError p), fs)
  | Some Dir =>
      match stat fs p with
      | Some Dir => (Raise (OSError IsADirectoryError p), fs)
      | _ => (Ret tt, <[p := File ""]> fs)
      end
  end.

End Fs.

(** ** External collaborators *)

(** A finished child process ([subprocess.CompletedProcess]). *)
Record completed := Completed {
  returncode : Z;
  stdout : string;
  stderr : string
}.

(** [subprocess.run] either cannot start the program or gets its exit
    status and captured streams. *)
Inductive launched :=
| Spawn_failed (e : os_error)
| Exited (c : completed).

(** A decode run of ffmpeg: its exit, and the bytes it left in its output
    file, if it wrote any (possibly a truncated file when it fails late). *)
Inductive decoded :=
| Decode_unavailable (e : os_error)
| Decode_exit (c : completed) (written : option string).

(** The tools the script drives. Each one is a function of what its input
    path names. *)
Class Tools := {
  handle : Type;
  ffprobe : option node → launched;
  ffmpeg : option node → decoded;
  whisper_load_model : string → outcome handle;
  whisper_transcribe : handle → option node → outcome string;
  dir_st_size : nat
}.

(** ** Observable events *)

(** One constructor per [print] call of the script, with the values it
    interpolates. *)
Inductive message :=
| Msg_audio_extracted (output : path)
| Msg_ffmpeg_output (out : string)
| Msg_error_extracting (input : path)
| Msg_command (cmd : list string)
| Msg_error_output (err : string)
| Msg_error (text : string)
| Msg_transcription_saved (txt : path)
| Msg_file_size (size : nat)
| Msg_failed_to_create (txt : path)
| Msg_error_in_transcribe (e : exn)
| Msg_extracting_from (relative : path)
| Msg_error_processing (name : string) (e : exn)
| Msg_transcribing (relative : path)
| Msg_loading_model
| Msg_transcribing_audio_files
| Msg_extracting_from_videos
| Msg_path (p : path)
| Msg_found (count : nat)
| Msg_result (relative : path) (size : nat).

Section Events.
Context `{Tools}.

(** What a run does to the outside world, in order. *)
Inductive event :=
| Ev_print (m : message)
| Ev_rglob (root : path) (pattern : string)
| Ev_mkdir (p : path) (parents exist_ok : bool)
| Ev_ffprobe (cmd : list string) (input : path)
| Ev_ffmpeg (cmd : list string) (input output : path)
| Ev_load_model (name : string)
| Ev_transcribe (model : handle) (audio : path)
| Ev_open_w (p : path)
| Ev_write (p : path) (data : string)
| Ev_exists (p : path)
| Ev_stat (p : path).

(** ** The monad of the script: state, exceptions and a trace *)

Record run (A : Type) := Run {
  result : outcome A;
  fs_after : filesystem;
  trace : list event
}.
Global Arguments Run {A} _ _ _.
Global Arguments result {A} _.
Global Arguments fs_after {A} _.
Global Arguments trace {A} _.

Definition M (A : Type) : Type := filesystem → run A.

Definition ret {A} (a : A) : M A := λ fs, Run (Ret a) fs [].

Definition raise {A} (e : exn) : M A := λ fs, Run (Raise e) fs [].

Definition bind {A B} (m : M A) (k : A → M B) : M B := λ fs,
  let r := m fs in
  match result r with
  | Ret a =>
      let r' := k a (fs_after r) in
      Run (result r') (fs_after r') (trace r ++ trace r')
  | Raise e => Run (Raise e) (fs_after r) (trace r)
  end.

Definition emit (e : event) : M unit := λ fs, Run (Ret tt) fs [e].

Definition print (m : message) : M unit := emit (Ev_print m).

(** A primitive that reads or updates the file system and may fail. *)
Definition prim {A} (e : event) (f : filesystem → outcome A * filesystem) : M A :=
  λ fs, Run (f fs).1 (f fs).2 [e].

End Events.

Declare Scope py_scope.
Delimit Scope py_scope with py.
Notation "x <- m ;; k" := (bind m (λ x, k))
  (at level 100, m at next level, k at level 200, right associativity) : py_scope.
Notation "m ;; k" := (bind m (λ _, k))
  (at level 100, k at level 200, right associativity) : py_scope.
Open Scope py_scope.

Section Control.
Context `{Tools}.

(** The handler of the first [except] clause whose class the exception
    is an instance of. *)
Fixpoint select_clause {A} (clauses : list (exn_class * (exn → M A))) (e : exn) : option (M A) :=
  match clauses with
  | [] => None
  | (c, h) :: rest => if isinstance e c then Some (h e) else select_clause rest e
  end.

(** [try: body except c1 as e: h1 except c2 as e: h2 ...]. An exception
    raised by a handler propagates. *)
Definition try_except {A} (body : M A) (clauses : list (exn_class * (exn → M A))) : M A := λ fs,
  let r := body fs in
  match result r with
  | Ret _ => r
  | Raise e =>
      match select_clause clauses e with
      | Some h =>
          let r' := h (fs_after r) in
          Run (result r') (fs_after r') (trace r ++ trace r')
      | None => r
      end
  end.

(** [for x in l: body x] *)
Fixpoint for_each {A} (l : list A) (body : A → M unit) : M unit :=
  match l with
  | [] => ret tt
  | x :: l' => body x ;; for_each l' body
  end.

(** A pure operation that raises [ValueError] when it has no result. *)
Definition or_value_error {A} (o : option A) (msg : string) : M A :=
  match o with
  | Some a => ret a
  | None => raise (ValueError msg)
  end.

End Control.

(** ** Primitives: pathlib, subprocess, whisper *)

Section Primitives.
Context `{Tools}.

(** [list(root.rglob(pattern))]. The script iterates over the generator
    while it writes below another root; the entries are taken when the
    loop starts. *)
Definition rglob (root : path) (pattern : string) : M (list path) :=
  prim (Ev_rglob root pattern) (λ fs, (Ret (Fs.rglob_list fs root pattern), fs)).

Definition path_mkdir (p : path) (parents exist_ok : bool) : M unit :=
  prim (Ev_mkdir p parents exist_ok) (Fs.mkdir p parents exist_ok).

Definition path_exists (p : path) : M bool :=
  prim (Ev_exists p) (λ fs, (Ret (Fs.exists_ fs p), fs)).

(** [p.stat().st_size] *)
Definition path_st_size (p : path) : M nat :=
  prim (Ev_stat p) (λ fs,
    match Fs.stat fs p with
    | Some (File data) => (Ret (String.length data), fs)
    | Some Dir => (Ret dir_st_size, fs)
    | None => (Raise (OSError FileNotFoundError p), fs)
    end).

Definition open_w (p : path) : M unit := prim (Ev_open_w p) (Fs.open_w p).

(** [file.write(data)] followed by the close at the end of the [with]
    block. *)
Definition file_write (p : path) (data : string) : M unit :=
  prim (Ev_write p data) (λ fs, (Ret tt, <[p := File data]> fs)).

(** [check=True]: a nonzero exit status raises [CalledProcessError]. *)
Definition check_returncode (cmd : list string) (c : completed) : outcome completed :=
  if decide (returncode c = 0%Z) then Ret c
  else Raise (CalledProcessError cmd (returncode c) (stdout c) (stderr c)).

(** [subprocess.run(probe_command, check=True, ...)] *)
Definition run_ffprobe (cmd : list string) (input : path) : M completed :=
  prim (Ev_ffprobe cmd input) (λ fs,
    match ffprobe (Fs.stat fs input) with
    | Spawn_failed e => (Raise (OSError e ["ffprobe"]), fs)
    | Exited c => (check_returncode cmd c, fs)
    end).

(** The exit of a decode run that could not write its output. *)
Definition refused (c : completed) : completed :=
  Completed 1 (stdout c) (stderr c).

(** What a decode run does to the file system and how it exits. The
    bytes the tool produces go to [output]: an existing output file is
    replaced when the command carries [-y] and refused otherwise, and an
    output that cannot be opened makes the run fail. *)
Definition ffmpeg_step (cmd : list string) (input output : path) (fs : filesystem)
  : outcome completed * filesystem :=
  match ffmpeg (Fs.stat fs input) with
  | Decode_unavailable e => (Raise (OSError e ["ffmpeg"]), fs)
  | Decode_exit c None => (check_returncode cmd c, fs)
  | Decode_exit c (Some data) =>
      if negb (bool_decide ("-y" ∈ cmd)) && Fs.exists_ fs output
      then (check_returncode cmd (refused c), fs)
      else
        match (Fs.open_w output fs).1 with
        | Ret _ => (check_returncode cmd c, <[output := File data]> fs)
        | Raise _ => (check_returncode cmd (refused c), fs)
        end
  end.

(** [subprocess.run(command, check=True, ...)] for the decode command. *)
Definition run_ffmpeg (cmd : list string) (input output : path) : M completed :=
  prim (Ev_ffmpeg cmd input output) (ffmpeg_step cmd input output).

(** [whisper.load_model(name)] *)
Definition load_model (name : string) : M handle :=
  prim (Ev_load_model name) (λ fs, (whisper_load_model name, fs)).

(** [model.transcribe(str(audio))["text"]] *)
Definition model_transcribe (model : handle) (audio : path) : M string :=
  prim (Ev_transcribe model audio) (λ fs,
    (whisper_transcribe model (Fs.stat fs audio), fs)).

End Primitives.

(** ** The script *)

Section Script.
Context `{Tools}.

Definition ffmpeg_command (input_file output_file : path) : list string :=
  ["ffmpeg";
   "-i"; PurePath.str input_file;
   "-vn";
   "-acodec"; "pcm_s16le";
   "-ar"; "16000";
   "-ac"; "1";
   PurePath.str output_file;
   "-y"].

Definition ffprobe_command (input_file : path) : list string :=
  ["ffprobe"; "-v"; "error"; "-show_entries"; "format=duration";
   "-of"; "default=noprint_wrappers=1:nokey=1"; PurePath.str input_file].

Definition extract_audio (input_file output_file : path) : M unit :=
  let command := ffmpeg_command input_file output_file in
  try_except
    (let probe_command := ffprobe_command input_file in
     probe_result <- run_ffprobe probe_command input_file ;;
     if negb (PyStr.truthy (PyStr.strip (stdout probe_result))) then
       raise (ValueError ("Unable to read file information for "
                          ++ PurePath.str input_file))
     else
       result <- run_ffmpeg command input_file output_file ;;
       print (Msg_audio_extracted output_file) ;;
       print (Msg_ffmpeg_output (stdout result)))
    [ (Cls_CalledProcessError, λ e,
         print (Msg_error_extracting input_file) ;;
         print (Msg_command command) ;;
         print (Msg_error_output
                  match e with
                  | CalledProcessError _ _ _ err => err
                  | _ => ""
                  end) ;;
         raise e);
      (Cls_ValueError, λ e,
         print (Msg_error match e with ValueError msg => msg | _ => "" end) ;;
         raise e) ].

(** The check after the write, lines 84-88 of the script. *)
Definition report_transcription (txt_path : path) : M unit :=
  present <- path_exists txt_path ;;
  if (present : bool) then
    print (Msg_transcription_saved txt_path) ;;
    size <- path_st_size txt_path ;;
    print (Msg_file_size size)
  else
    print (Msg_failed_to_create txt_path).

Definition transcribe_audio (audio_path txt_path : path) (model : handle) : M unit :=
  try_except
    (text <- model_transcribe model audio_path ;;
     open_w txt_path ;;
     file_write txt_path text ;;
     report_transcription txt_path)
    [ (Cls_Exception, λ e, print (Msg_error_in_transcribe e)) ].

(** The body of the loop of [process_videos]. *)
Definition process_videos_body (videos_folder audio_folder video_file : path) : M unit :=
  relative_path <- or_value_error (PurePath.relative_to video_file videos_folder)
                     "is not in the subpath" ;;
  new_name <- or_value_error (PurePath.with_suffix relative_path ".wav")
                "has an empty name" ;;
  let audio_path := PurePath.joinpath audio_folder new_name in
  path_mkdir (PurePath.parent audio_path) true true ;;
  print (Msg_extracting_from relative_path) ;;
  try_except
    (extract_audio video_file audio_path)
    [ (Cls_Exception, λ e,
         print (Msg_error_processing (PurePath.name video_file) e)) ].

Definition process_videos (videos_folder audio_folder : path) : M unit :=
  video_files <- rglob videos_folder "*.mp4" ;;
  for_each video_files (process_videos_body videos_folder audio_folder).

(** The body of the loop of [process_audio_files]. *)
Definition process_audio_files_body (audio_folder results_folder : path) (model : handle)
    (audio_file : path) : M unit :=
  relative_path <- or_value_error (PurePath.relative_to audio_file audio_folder)
                     "is not in the subpath" ;;
  new_name <- or_value_error (PurePath.with_suffix relative_path ".txt")
                "has an empty name" ;;
  let txt_path := PurePath.joinpath results_folder new_name in
  path_mkdir (PurePath.parent txt_path) true true ;;
  print (Msg_transcribing relative_path) ;;
  transcribe_audio audio_file txt_path model.

Definition process_audio_files (audio_folder results_folder : path) (model : handle) : M unit :=
  audio_files <- rglob audio_folder "*.wav" ;;
  for_each audio_files (process_audio_files_body audio_folder results_folder model).

Definition videos_folder : path := ["videos"].
Definition audio_folder : path := ["audio"].
Definition results_folder : path := ["results"].

(** [len(sys.argv) > 1 and sys.argv[1] == "processaudio"] *)
Definition processaudio_requested (argv : list string) : bool :=
  (1 <? length argv)%nat && String.eqb (nth 1 argv "") "processaudio".

Definition main (argv : list string) : M unit :=
  path_mkdir audio_folder false true ;;
  path_mkdir results_folder false true ;;
  print Msg_loading_model ;;
  model <- load_model "base" ;;
  (if processaudio_requested argv then
     print Msg_transcribing_audio_files ;;
     process_audio_files audio_folder results_folder model
   else
     print Msg_extracting_from_videos ;;
     listing <- rglob videos_folder "*.mp4" ;;
     for_each listing (λ video_file, print (Msg_path video_file)) ;;
     process_videos videos_folder audio_folder ;;
     print Msg_transcribing_audio_files ;;
     process_audio_files audio_folder results_folder model) ;;
  txt_files <- rglob results_folder "*.txt" ;;
  print (Msg_found (length txt_files)) ;;
  for_each txt_files (λ txt_file,
    relative <- or_value_error (PurePath.relative_to txt_file results_folder)
                  "is not in the subpath" ;;
    size <- path_st_size txt_file ;;
    print (Msg_result relative size)).

End Script.

(** ** Sample worlds *)

Module Sample.

(** Tools that succeed on every non-empty regular file. *)
Definition tools : Tools := {|
  handle := unit;
  ffprobe := λ n,
    match n with
    | Some (File (String _ _)) => Exited (Completed 0 "12.500000" "")
    | Some (File EmptyString) => Exited (Completed 0 "" "")
    | _ => Exited (Completed 1 "" "No such file or directory")
    end;
  ffmpeg := λ n,
    match n with
    | Some (File data) => Decode_exit (Completed 0 "" "") (Some ("RIFF" +:+ data))
    | _ => Decode_exit (Completed 1 "" "Invalid data") None
    end;
  whisper_load_model := λ _, Ret tt;
  whisper_transcribe := λ _ n,
    match n with
    | Some (File data) => Ret ("text of " +:+ data)
    | _ => Raise (OtherError "Failed to load audio")
    end;
  dir_st_size := 4096
|}.

(** A decoder that leaves a truncated file behind and fails. *)
Definition tools_partial : Tools := {|
  handle := unit;
  ffprobe := λ _, Exited (Completed 0 "12.500000" "");
  ffmpeg := λ _, Decode_exit (Completed 1 "" "Conversion failed!") (Some "RIFF");
  whisper_load_model := λ _, Ret tt;
  whisper_transcribe := λ _ _, Ret "";
  dir_st_size := 4096
|}.

(** A model that cannot be loaded. *)
Definition tools_no_model : Tools := {|
  handle := unit;
  ffprobe := λ _, Exited (Completed 0 "12.500000" "");
  ffmpeg := λ _, Decode_exit (Completed 0 "" "") (Some "RIFF");
  whisper_load_model := λ _, Raise (OtherError "checkpoint not found");
  whisper_transcribe := λ _ _, Ret "";
  dir_st_size := 4096
|}.

(** [videos/a.mp4] *)
Definition fs_one : filesystem :=
  <[ ["videos"] := Dir ]> (<[ ["videos"; "a.mp4"] := File "A" ]> ∅).

(** [videos/a.mp4], [videos/sub/b.mp4], and an audio file with no
    video, [audio/old.wav]. *)
Definition fs_tree : filesystem :=
  <[ ["videos"] := Dir ]>
  (<[ ["videos"; "a.mp4"] := File "A" ]>
  (<[ ["videos"; "sub"] := Dir ]>
  (<[ ["videos"; "sub"; "b.mp4"] := File "B" ]>
  (<[ ["audio"] := Dir ]>
  (<[ ["audio"; "old.wav"] := File "O" ]> ∅))))).

(** A video whose whole name is the extension: [videos/.mp4]. *)
Definition fs_bare : filesystem :=
  <[ ["videos"] := Dir ]> (<[ ["videos"; ".mp4"] := File "A" ]> ∅).

(** An unreadable (empty) video before a good one. *)
Definition fs_empty_video : filesystem :=
  <[ ["videos"] := Dir ]>
  (<[ ["videos"; "a.mp4"] := File "" ]>
  (<[ ["videos"; "b.mp4"] := File "B" ]> ∅)).

(** A regular file where the audio root should be. *)
Definition fs_audio_is_file : filesystem :=
  <[ ["videos"] := Dir ]> (<[ ["audio"] := File "x" ]> ∅).

End Sample.

(** ** Vocabulary of the properties *)

Section Vocabulary.
Context `{Tools}.

(** The probe ran, exited with status zero and printed only white
    space. *)
Definition probe_blank (fs : filesystem) (input : path) : Prop :=
  ∃ c, ffprobe (Fs.stat fs input) = Exited c ∧ returncode c = 0%Z
       ∧ PyStr.strip (stdout c) = "".

(** The probe ran, exited with status zero and printed something. *)
Definition probe_ok (fs : filesystem) (input : path) : Prop :=
  ∃ c, ffprobe (Fs.stat fs input) = Exited c ∧ returncode c = 0%Z
       ∧ PyStr.strip (stdout c) ≠ "".

(** The [ValueError] of line 44. *)
Definition unreadable_error (input : path) : exn :=
  ValueError ("Unable to read file information for " +:+ PurePath.str input).

Definition is_decode (e : event) : Prop :=
  match e with Ev_ffmpeg _ _ _ => True | _ => False end.

Definition is_load (e : event) : bool :=
  match e with Ev_load_model _ => true | _ => false end.

(** Number of model loads in a trace. *)
Definition count_loads (t : list event) : nat := length (filter (λ e, is_load e = true) t).

(** The events that enumerate, read or write the files of a batch: every
    event but the creation of directories, the load of the model and the
    messages. *)
Definition processes_file (e : event) : Prop :=
  match e with
  | Ev_print _ | Ev_mkdir _ _ _ | Ev_load_model _ => False
  | _ => True
  end.

(** The events of the extraction phase. *)
Definition is_extraction (e : event) : Prop :=
  match e with
  | Ev_ffprobe _ _ | Ev_ffmpeg _ _ _ => True
  | Ev_rglob root _ => root = videos_folder
  | _ => False
  end.

(** The paths an event enumerates, reads, creates or writes. *)
Definition event_paths (e : event) : list path :=
  match e with
  | Ev_print _ | Ev_load_model _ => []
  | Ev_rglob root _ => [root]
  | Ev_mkdir p _ _ => [p]
  | Ev_ffprobe _ input => [input]
  | Ev_ffmpeg _ input output => [input; output]
  | Ev_transcribe _ audio => [audio]
  | Ev_open_w p | Ev_write p _ | Ev_exists p | Ev_stat p => [p]
  end.

(** The guarded call of lines 117-120: [extract_audio] inside the
    [try] of [process_videos]. *)
Definition extract_audio_guarded (video_file audio_path : path) : M unit :=
  try_except
    (extract_audio video_file audio_path)
    [ (Cls_Exception, λ e,
         print (Msg_error_processing (PurePath.name video_file) e)) ].

(** The mirrored path as the specification words it: the path of
    [file] relative to [in_root], with the extension [old] of its name
    changed to [new], below [out_root]. *)
Fixpoint strip_extension (old nm : string) : option string :=
  if String.eqb nm old then Some ""
  else match nm with
       | EmptyString => None
       | String c nm' => String c <$> strip_extension old nm'
       end.

Definition change_extension (old new nm : string) : option string :=
  (λ stem, stem +:+ new) <$> strip_extension old nm.

Definition mirror_path (in_root out_root : path) (old new : string) (file : path)
  : option path :=
  rel ← PurePath.relative_to file in_root;
  nm ← change_extension old new (PurePath.name rel);
  Some (out_root ++ PurePath.parent rel ++ [nm]).

(** The events of the transcription phase. *)
Definition is_transcription (e : event) : Prop :=
  match e with
  | Ev_transcribe _ _ | Ev_open_w _ | Ev_write _ _ => True
  | Ev_rglob root _ => root = audio_folder
  | _ => False
  end.

(** The report that ends [main], lines 196-199. *)
Definition report_results : M unit :=
  txt_files <- rglob results_folder "*.txt" ;;
  print (Msg_found (length txt_files)) ;;
  for_each txt_files (λ txt_file,
    relative <- or_value_error (PurePath.relative_to txt_file results_folder)
                  "is not in the subpath" ;;
    size <- path_st_size txt_file ;;
    print (Msg_result relative size)).

(** The two branches of [main], lines 182-193. *)
Definition transcription_only (model : handle) : M unit :=
  print Msg_transcribing_audio_files ;;
  process_audio_files audio_folder results_folder model.

Definition full_pipeline (model : handle) : M unit :=
  print Msg_extracting_from_videos ;;
  listing <- rglob videos_folder "*.mp4" ;;
  for_each listing (λ video_file, print (Msg_path video_file)) ;;
  process_videos videos_folder audio_folder ;;
  print Msg_transcribing_audio_files ;;
  process_audio_files audio_folder results_folder model.

(** [main] from line 182 on, once the model is loaded. *)
Definition main_after_load (argv : list string) (model : handle) : M unit :=
  (if processaudio_requested argv then transcription_only model
   else full_pipeline model) ;;
  report_results.

(** What an extraction phase may do: enumerate the video root, create
    directories below the audio root, probe and decode a video into a
    file below the audio root. *)
Definition extraction_phase_event (vroot aroot : path) (e : event) : Prop :=
  match e with
  | Ev_print _ => True
  | Ev_rglob root pattern => root = vroot ∧ pattern = "*.mp4"
  | Ev_mkdir p true true => aroot `prefix_of` p
  | Ev_ffprobe _ input => Fs.is_below vroot input = true
  | Ev_ffmpeg _ input output =>
      Fs.is_below vroot input = true ∧ Fs.is_below aroot output = true
  | _ => False
  end.

(** What a transcription phase may do: enumerate the audio root, create
    directories below the results root, give an audio file to the one
    model and write, test and measure a file below the results root. *)
Definition transcription_phase_event (aroot rroot : path) (model : handle) (e : event)
  : Prop :=
  match e with
  | Ev_print _ => True
  | Ev_rglob root pattern => root = aroot ∧ pattern = "*.wav"
  | Ev_mkdir p true true => rroot `prefix_of` p
  | Ev_transcribe m audio => m = model ∧ Fs.is_below aroot audio = true
  | Ev_open_w p | Ev_write p _ | Ev_exists p | Ev_stat p =>
      Fs.is_below rroot p = true
  | _ => False
  end.

(** What the final report may do. *)
Definition report_event (rroot : path) (e : event) : Prop :=
  match e with
  | Ev_print _ => True
  | Ev_rglob root pattern => root = rroot ∧ pattern = "*.txt"
  | Ev_stat p => Fs.is_below rroot p = true
  | _ => False
  end.

(** What [extract_audio] may do: probe its input, decode it into its
    output, and print messages about the two. *)
Definition extract_audio_event (input output : path) (e : event) : Prop :=
  match e with
  | Ev_print (Msg_error_extracting v) => v = input
  | Ev_print (Msg_error_processing nm _) => nm = PurePath.name input
  | Ev_print (Msg_audio_extracted o) => o = output
  | Ev_print _ => True
  | Ev_ffprobe cmd i => cmd = ffprobe_command input ∧ i = input
  | Ev_ffmpeg cmd i o => cmd = ffmpeg_command input output ∧ i = input ∧ o = output
  | _ => False
  end.

(** The events of an extraction phase concern the enumerated files: what
    is probed, decoded or reported as failed is one of them. *)
Definition extraction_file_event (files : list path) (e : event) : Prop :=
  match e with
  | Ev_ffprobe _ i | Ev_ffmpeg _ i _ | Ev_print (Msg_error_extracting i) => i ∈ files
  | Ev_print (Msg_error_processing nm _) => ∃ v, v ∈ files ∧ nm = PurePath.name v
  | _ => True
  end.

(** The events of a transcription phase concern the enumerated files. *)
Definition transcription_file_event (files : list path) (e : event) : Prop :=
  match e with
  | Ev_transcribe _ a => a ∈ files
  | _ => True
  end.

(** A path that is neither the working directory nor the video root nor
    anything below the video root. *)
Definition outside_videos (p : path) : Prop :=
  p ≠ [] ∧ ¬ videos_folder `prefix_of` p.

(** The file system once [main] has created its two roots. *)
Definition after_setup (fs : filesystem) : filesystem :=
  (Fs.mkdir results_folder false true (Fs.mkdir audio_folder false true fs).2).2.

(** The events of [main] before the model is used. *)
Definition setup_trace : list event :=
  [Ev_mkdir audio_folder false true; Ev_mkdir results_folder false true;
   Ev_print Msg_loading_model; Ev_load_model "base"].

(** What may follow the load of the model: no other load, and no
    transcription with another handle. *)
Definition after_load_event (model : handle) (e : event) : Prop :=
  is_load e = false
  ∧ match e with
    | Ev_transcribe m _ => m = model
    | _ => True
    end.

(** The inputs of the probes of a trace, in order. *)
Definition probed_inputs (t : list event) : list path :=
  omap (λ e, match e with Ev_ffprobe _ input => Some input | _ => None end) t.

(** The audio files given to the model in a trace, in order. *)
Definition transcribed_inputs (t : list event) : list path :=
  omap (λ e, match e with Ev_transcribe _ audio => Some audio | _ => None end) t.

(** *** The loops as updates of the file system

    Both loops do the same to the file system: for each input file, create
    the directory of its mirrored target, then put there, if the target can
    be opened, what the tools make of the input. *)

(** [open(p, "w")] succeeds: the parent is a directory and [p] is not. *)
Definition can_write (fs : filesystem) (p : path) : bool :=
  Fs.is_dir fs (PurePath.parent p) && negb (Fs.is_dir fs p).









End Vocabulary.

(** * Properties *)

(** ** Strings and pure paths *)

Module PyStrFacts.
Import PyStr.

Lemma app_length (a b : string) :
  String.length (a +:+ b) = String.length a + String.length b.
Proof. induction a as [|c a IH]; simpl; [reflexivity | now rewrite IH]. Qed.

Lemma substring_prefix (a b : string) :
  substring 0 (String.length a) (a +:+ b) = a.
Proof.
  induction a as [|c a IH]; simpl.
  - now destruct b.
  - now rewrite IH.
Qed.

Lemma substring_all (a : string) : substring 0 (String.length a) a = a.
Proof. induction a as [|c a IH]; simpl; [reflexivity | now rewrite IH]. Qed.

Lemma substring_drop (a b : string) :
  substring (String.length a) (String.length b) (a +:+ b) = b.
Proof.
  induction a as [|c a IH]; simpl; [apply substring_all | exact IH].
Qed.

Lemma truthy_false (s : string) : truthy s = false ↔ s = "".
Proof. destruct s; simpl; split; congruence. Qed.

Lemma lstrip_all_space (s : string) : all_space s = true → lstrip s = "".
Proof.
  induction s as [|c s IH]; simpl; [reflexivity|].
  intros [Hc Hs]%andb_true_iff. rewrite Hc. auto.
Qed.

Lemma rstrip_empty (s : string) : rstrip s = "" → all_space s = true.
Proof.
  induction s as [|c s IH]; simpl; [reflexivity|].
  destruct (rstrip s) eqn:E; [|discriminate].
  destruct (isspace c); [intros _; simpl; auto | discriminate].
Qed.

Lemma lstrip_not_space (s : string) :
  lstrip s = "" ∨ ∃ c r, lstrip s = String c r ∧ isspace c = false.
Proof.
  induction s as [|c s IH]; simpl; [now left|].
  destruct (isspace c) eqn:E; [exact IH|]. right. eauto.
Qed.

(** [s.strip()] is empty exactly when [s] is made of white space only. *)
Lemma strip_empty_iff (s : string) : strip s = "" ↔ all_space s = true.
Proof.
  unfold strip. split.
  - intros E. induction s as [|c s IH]; simpl in *; [reflexivity|].
    destruct (isspace c) eqn:Ec; simpl.
    + auto.
    + simpl in E. destruct (rstrip s); [rewrite Ec in E|]; discriminate.
  - intros E. now rewrite lstrip_all_space.
Qed.

Lemma glob_literal (pat s : string) :
  literal pat = true → glob pat s = true ↔ s = pat.
Proof.
  revert s. induction pat as [|p pat IH]; intros s L; simpl in *.
  - destruct s; split; congruence.
  - apply andb_true_iff in L as [[L1 L2]%andb_true_iff L3].
    apply negb_true_iff in L1, L2. rewrite L1, L2.
    destruct s as [|c s]; [split; discriminate|].
    rewrite andb_true_iff, (IH s L3), Ascii.eqb_eq.
    split; [intros [-> ->]; reflexivity | intros [= -> ->]; auto].
Qed.

(** [*ext] matches exactly the names that end in [ext]. *)
Lemma glob_star (ext s : string) :
  literal ext = true →
  glob (String "*" ext) s = true ↔ ∃ stem, s = stem +:+ ext.
Proof.
  intros L. simpl.
  induction s as [|c s IH].
  - rewrite orb_false_r, (glob_literal _ _ L). split.
    + intros E. exists "". now rewrite <- E.
    + intros [[|? ?] E]; simpl in E; [auto | discriminate].
  - rewrite orb_true_iff, (glob_literal _ _ L), IH. split.
    + intros [E | [stem ->]]; [exists ""; now rewrite <- E | now exists (String c stem)].
    + intros [[|d stem] E]; simpl in E; [now left|].
      injection E as -> ->. right. eauto.
Qed.

Lemma rfind_dot_none_app (a b : string) :
  rfind_dot b = None → rfind_dot (a +:+ b) = rfind_dot a.
Proof.
  intros Hb. induction a as [|c a IH]; simpl; [exact Hb | now rewrite IH].
Qed.

(** The last full stop of [stem ++ "." ++ e], for [e] without one. *)
Lemma rfind_dot_ext (stem e : string) :
  rfind_dot e = None →
  rfind_dot (stem +:+ String "." e) = Some (String.length stem).
Proof.
  intros He. induction stem as [|c stem IH]; simpl.
  - now rewrite He.
  - now rewrite IH.
Qed.

End PyStrFacts.

Module PurePathFacts.
Import PyStr PyStrFacts PurePath.

(** The suffix of a name with a non-empty stem and a non-empty
    extension. *)
Lemma suffix_of_ext (stem e : string) :
  stem ≠ "" → e ≠ "" → rfind_dot e = None →
  suffix_of (stem +:+ String "." e) = String "." e.
Proof.
  intros Hs He Hd. unfold suffix_of. rewrite (rfind_dot_ext _ _ Hd).
  rewrite app_length. simpl String.length.
  assert (0 < String.length stem) by (destruct stem; simpl; [congruence | lia]).
  assert (0 < String.length e) by (destruct e; simpl; [congruence | lia]).
  replace ((0 <? String.length stem)%nat) with true by (symmetry; apply Nat.ltb_lt; lia).
  replace ((String.length stem <? String.length stem + S (String.length e) - 1)%nat)
    with true by (symmetry; apply Nat.ltb_lt; lia).
  simpl andb. cbv iota.
  replace (String.length stem + S (String.length e) - String.length stem)
    with (String.length (String "." e)) by (simpl; lia).
  apply substring_drop.
Qed.

(** A name that is only an extension, such as [.mp4], has no suffix. *)
Lemma suffix_of_hidden (e : string) :
  rfind_dot e = None → suffix_of (String "." e) = "".
Proof. intros Hd. unfold suffix_of. simpl. now rewrite Hd. Qed.

(** [with_suffix] replaces the extension of a name with a non-empty
    stem. *)
Lemma with_suffix_name_ext (stem e new : string) :
  stem ≠ "" → e ≠ "" → rfind_dot e = None →
  with_suffix_name (stem +:+ String "." e) new = stem +:+ new.
Proof.
  intros Hs He Hd. unfold with_suffix_name.
  rewrite (suffix_of_ext _ _ Hs He Hd). simpl truthy. cbv iota.
  rewrite app_length.
  replace (String.length stem + String.length (String "." e) - String.length (String "." e))
    with (String.length stem) by lia.
  now rewrite substring_prefix.
Qed.

(** ... and appends to a name that is only an extension. *)
Lemma with_suffix_name_hidden (e new : string) :
  rfind_dot e = None →
  with_suffix_name (String "." e) new = String "." e +:+ new.
Proof.
  intros Hd. unfold with_suffix_name. now rewrite (suffix_of_hidden _ Hd).
Qed.

Lemma relative_to_app (root q : path) : relative_to (root ++ q) root = Some q.
Proof.
  induction root as [|r root IH]; simpl; [reflexivity|].
  rewrite decide_True by reflexivity. exact IH.
Qed.

Lemma relative_to_Some (p root q : path) :
  relative_to p root = Some q ↔ p = root ++ q.
Proof.
  split; [|intros ->; apply relative_to_app].
  revert p. induction root as [|r root IH]; intros p; simpl.
  - congruence.
  - destruct p as [|x p]; [discriminate|].
    destruct (decide (r = x)) as [->|]; [|discriminate].
    intros E. now rewrite (IH _ E).
Qed.

Lemma name_app (a b : path) : b ≠ [] → name (a ++ b) = name b.
Proof.
  intros Hb. unfold name. rewrite last_app.
  destruct (last b) eqn:E; [reflexivity|].
  apply last_None in E. contradiction.
Qed.


Lemma parent_snoc (a : path) (x : string) : parent (a ++ [x]) = a.
Proof. unfold parent. apply removelast_last. Qed.



End PurePathFacts.

(** ** The monad *)

Section MonadFacts.
Context `{Tools}.

Lemma bind_Ret {A B} (m : M A) (k : A → M B) fs a :
  result (m fs) = Ret a →
  bind m k fs =
    Run (result (k a (fs_after (m fs)))) (fs_after (k a (fs_after (m fs))))
        (trace (m fs) ++ trace (k a (fs_after (m fs)))).
Proof. intros E. unfold bind. now rewrite E. Qed.

Lemma bind_Raise {A B} (m : M A) (k : A → M B) fs e :
  result (m fs) = Raise e →
  bind m k fs = Run (Raise e) (fs_after (m fs)) (trace (m fs)).
Proof. intros E. unfold bind. now rewrite E. Qed.

Lemma for_each_cons {A} (x : A) l (body : A → M unit) :
  for_each (x :: l) body = (body x ;; for_each l body).
Proof. reflexivity. Qed.

(** A loop whose first iteration returns goes on with the rest. *)
Lemma for_each_continue {A} (x : A) l (body : A → M unit) fs :
  result (body x fs) = Ret tt →
  let r := for_each (x :: l) body fs in
  let r' := for_each l body (fs_after (body x fs)) in
  result r = result r' ∧ fs_after r = fs_after r'
  ∧ trace r = trace (body x fs) ++ trace r'.
Proof. intros E. simpl. unfold bind. rewrite E. simpl. auto. Qed.

(** A loop stops at the first iteration that raises. *)
Lemma for_each_abort {A} (x : A) l (body : A → M unit) fs e :
  result (body x fs) = Raise e →
  for_each (x :: l) body fs = Run (Raise e) (fs_after (body x fs)) (trace (body x fs)).
Proof. intros E. simpl. unfold bind. now rewrite E. Qed.

(** *** Properties of every event of a trace *)

Lemma trace_bind_Forall {A B} (P : event → Prop) (m : M A) (k : A → M B) fs :
  Forall P (trace (m fs)) →
  (∀ a, result (m fs) = Ret a → Forall P (trace (k a (fs_after (m fs))))) →
  Forall P (trace (bind m k fs)).
Proof.
  intros Hm Hk. unfold bind. destruct (result (m fs)) eqn:E; simpl; [|exact Hm].
  apply Forall_app. split; [exact Hm | now apply Hk].
Qed.

Lemma trace_try_except_Forall {A} (P : event → Prop) (body : M A) clauses fs :
  Forall P (trace (body fs)) →
  (∀ e h, result (body fs) = Raise e → select_clause clauses e = Some h →
          Forall P (trace (h (fs_after (body fs))))) →
  Forall P (trace (try_except body clauses fs)).
Proof.
  intros Hb Hh. unfold try_except.
  destruct (result (body fs)) eqn:E; [exact Hb|].
  destruct (select_clause clauses e) eqn:S; [|exact Hb]. simpl.
  apply Forall_app. split; [exact Hb | now apply (Hh e)].
Qed.

Lemma trace_for_each_Forall {A} (P : event → Prop) (l : list A) (body : A → M unit) fs :
  (∀ x fs', x ∈ l → Forall P (trace (body x fs'))) →
  Forall P (trace (for_each l body fs)).
Proof.
  revert fs. induction l as [|x l IH]; intros fs Hb; simpl; [constructor|].
  apply trace_bind_Forall.
  - apply Hb. left.
  - intros _ _. apply IH. intros y fs' Hy. apply Hb. now right.
Qed.

Lemma trace_prim_Forall {A} (P : event → Prop) (e : event)
    (f : filesystem → outcome A * filesystem) fs :
  P e → Forall P (trace (prim e f fs)).
Proof. intros He. simpl. repeat constructor. exact He. Qed.

Lemma trace_ret_Forall {A} (P : event → Prop) (a : A) fs : Forall P (trace (ret a fs)).
Proof. constructor. Qed.

Lemma trace_raise_Forall {A} (P : event → Prop) e fs : Forall P (trace (@raise _ A e fs)).
Proof. constructor. Qed.

Lemma trace_or_value_error_Forall {A} (P : event → Prop) (o : option A) msg fs :
  Forall P (trace (or_value_error o msg fs)).
Proof. destruct o; constructor. Qed.

Lemma trace_print_Forall (P : event → Prop) (m : message) fs :
  P (Ev_print m) → Forall P (trace (print m fs)).
Proof. intros Hm. repeat constructor. exact Hm. Qed.

(** *** Where an event of a loop comes from *)

Lemma trace_bind_split {A B} (m : M A) (k : A → M B) fs pre e post :
  trace (bind m k fs) = pre ++ e :: post →
  (∃ post', trace (m fs) = pre ++ e :: post')
  ∨ (∃ a pre', result (m fs) = Ret a ∧ pre = trace (m fs) ++ pre'
               ∧ trace (k a (fs_after (m fs))) = pre' ++ e :: post).
Proof.
  unfold bind. destruct (result (m fs)) eqn:E; simpl.
  - intros Ht. apply app_eq_app in Ht as [l [[Hm Hl] | [-> Hl]]].
    + destruct l as [|x l].
      * right. exists a, []. rewrite app_nil_r in *. simpl in Hl. auto.
      * left. exists l. simpl in Hl. injection Hl as -> Hl. now rewrite Hm.
    + right. exists a, l. auto.
  - intros ->. left. eauto.
Qed.

Lemma trace_for_each_split {A} (l : list A) (body : A → M unit) fs pre e post :
  trace (for_each l body fs) = pre ++ e :: post →
  ∃ x fs' pre0 pre1 post1,
    x ∈ l ∧ pre = pre0 ++ pre1 ∧ trace (body x fs') = pre1 ++ e :: post1.
Proof.
  revert fs pre. induction l as [|x l IH]; intros fs pre Ht; simpl in Ht.
  - now destruct pre.
  - apply trace_bind_split in Ht as [[post' Ht] | (a & pre' & Ha & -> & Ht)].
    + exists x, fs, [], pre, post'. split; [left | auto].
    + apply IH in Ht as (y & fs' & pre0 & pre1 & post1 & Hy & -> & Ht).
      exists y, fs', (trace (body x fs) ++ pre0), pre1, post1.
      split; [now right | split; [now rewrite app_assoc | exact Ht]].
Qed.

End MonadFacts.

(** Proves a property of every event of the trace of a program built from
    the combinators, leaving the conditions on its primitive events. *)
Ltac trace_forall :=
  repeat first
    [ apply trace_bind_Forall; [|intros ? _]
    | apply trace_try_except_Forall;
      [| let Hs := fresh "Hs" in
         intros ? ? _ Hs; simpl in Hs;
         repeat match type of Hs with
                | context [if ?b then _ else _] => destruct b
                end;
         try discriminate Hs; injection Hs as <- ]
    | apply trace_for_each_Forall; intros ? ? _
    | apply trace_prim_Forall
    | apply trace_print_Forall
    | apply trace_raise_Forall
    | apply trace_ret_Forall
    | apply trace_or_value_error_Forall
    | match goal with
      | |- context [if ?b then _ else _] => destruct b
      end ].

(** ** [extract_audio] case by case *)

Section ExtractAudio.
Context `{Tools}.
Import PyStr PyStrFacts.

Lemma extract_audio_probe_blank (input output : path) fs :
  probe_blank fs input →
  extract_audio input output fs =
    Run (Raise (unreadable_error input)) fs
        [Ev_ffprobe (ffprobe_command input) input;
         Ev_print (Msg_error ("Unable to read file information for "
                              +:+ PurePath.str input))].
Proof.
  intros (c & Hp & Hrc & Hs).
  unfold extract_audio, try_except, bind, run_ffprobe, prim, check_returncode.
  rewrite Hp. rewrite decide_True by exact Hrc. simpl.
  rewrite Hs. reflexivity.
Qed.

(** The probe exited with a nonzero status: [check=True] raises
    [CalledProcessError], and the first handler reports it with the
    decode command. *)
Lemma extract_audio_probe_nonzero (input output : path) fs c :
  ffprobe (Fs.stat fs input) = Exited c → returncode c ≠ 0%Z →
  extract_audio input output fs =
    Run (Raise (CalledProcessError (ffprobe_command input) (returncode c)
                  (stdout c) (stderr c)))
        fs
        [Ev_ffprobe (ffprobe_command input) input;
         Ev_print (Msg_error_extracting input);
         Ev_print (Msg_command (ffmpeg_command input output));
         Ev_print (Msg_error_output (stderr c))].
Proof.
  intros Hp Hrc.
  unfold extract_audio, try_except, bind, run_ffprobe, prim, check_returncode.
  rewrite Hp. rewrite decide_False by exact Hrc. reflexivity.
Qed.

(** The probe could not be started: the [OSError] matches neither
    handler. *)
Lemma extract_audio_probe_unavailable (input output : path) fs e :
  ffprobe (Fs.stat fs input) = Spawn_failed e →
  extract_audio input output fs =
    Run (Raise (OSError e ["ffprobe"])) fs [Ev_ffprobe (ffprobe_command input) input].
Proof.
  intros Hp.
  unfold extract_audio, try_except, bind, run_ffprobe, prim.
  rewrite Hp. reflexivity.
Qed.

Lemma run_ffprobe_eq (cmd : list string) (input : path) fs :
  run_ffprobe cmd input fs =
    Run (match ffprobe (Fs.stat fs input) with
         | Spawn_failed e => Raise (OSError e ["ffprobe"])
         | Exited c => check_returncode cmd c
         end) fs [Ev_ffprobe cmd input].
Proof. unfold run_ffprobe, prim. now destruct (ffprobe _). Qed.

Lemma run_ffmpeg_trace (cmd : list string) (input output : path) fs :
  trace (run_ffmpeg cmd input output fs) = [Ev_ffmpeg cmd input output].
Proof. reflexivity. Qed.

(** The decode command raises [CalledProcessError] or, when it cannot be
    started, [OSError]. *)
Lemma ffmpeg_step_raises (cmd : list string) (input output : path) fs e :
  (ffmpeg_step cmd input output fs).1 = Raise e →
  (∃ rc out err, e = CalledProcessError cmd rc out err) ∨ (∃ k, e = OSError k ["ffmpeg"]).
Proof.
  unfold ffmpeg_step, check_returncode. intros Ed.
  repeat match type of Ed with
         | context [match ?x with _ => _ end] => destruct x; simpl in Ed
         | context [if ?x then _ else _] => destruct x; simpl in Ed
         end; try discriminate; injection Ed as <-; eauto 10.
Qed.

(** After a good probe the decode command runs, and [extract_audio]
    ends as it does. *)
Lemma extract_audio_probe_ok (input output : path) fs :
  probe_ok fs input →
  let cmd := ffmpeg_command input output in
  let d := ffmpeg_step cmd input output fs in
  extract_audio input output fs =
    match d.1 with
    | Ret c =>
        Run (Ret tt) d.2
            [Ev_ffprobe (ffprobe_command input) input;
             Ev_ffmpeg cmd input output;
             Ev_print (Msg_audio_extracted output);
             Ev_print (Msg_ffmpeg_output (stdout c))]
    | Raise (CalledProcessError a b c err as e) =>
        Run (Raise e) d.2
            [Ev_ffprobe (ffprobe_command input) input;
             Ev_ffmpeg cmd input output;
             Ev_print (Msg_error_extracting input);
             Ev_print (Msg_command cmd);
             Ev_print (Msg_error_output err)]
    | Raise e =>
        Run (Raise e) d.2
            [Ev_ffprobe (ffprobe_command input) input;
             Ev_ffmpeg cmd input output]
    end.
Proof.
  intros (c & Hp & Hrc & Hs) cmd d.
  assert (Ht : truthy (strip (stdout c)) = true).
  { destruct (strip (stdout c)); [congruence | reflexivity]. }
  unfold extract_audio, try_except, bind. rewrite run_ffprobe_eq, Hp.
  unfold check_returncode. rewrite decide_True by exact Hrc. simpl.
  rewrite Ht. simpl. fold cmd. subst d.
  destruct (ffmpeg_step cmd input output fs).1 as [c'|e] eqn:Ed; simpl; [reflexivity|].
  apply ffmpeg_step_raises in Ed as [(rc & out & err & ->) | (k & ->)]; reflexivity.
Qed.

End ExtractAudio.

(** ** The file system operations *)

Module FsFacts.
Import Fs.

Lemma stat_nonempty (fs : filesystem) (p : path) : p ≠ [] → stat fs p = fs !! p.
Proof. now destruct p. Qed.




(** The walk does nothing when every component is a directory. *)
Lemma makedirs_present (target base rest : path) (fs : filesystem) :
  (∀ k, k < length rest → fs !! (base ++ take (S k) rest) = Some Dir) →
  makedirs target base rest fs = Ret fs.
Proof.
  revert base. induction rest as [|x rest IH]; intros base Hd; simpl; [reflexivity|].
  pose proof (Hd 0 ltac:(simpl; lia)) as H0. simpl in H0. rewrite take_0 in H0.
  rewrite H0. apply IH. intros k Hk.
  rewrite <- app_assoc. apply (Hd (S k)). simpl. lia.
Qed.

(** A failed [mkdir] changes nothing. *)
Lemma mkdir_Raise (p : path) (parents exist_ok : bool) (fs : filesystem) e :
  (mkdir p parents exist_ok fs).1 = Raise e → (mkdir p parents exist_ok fs).2 = fs.
Proof.
  unfold mkdir.
  repeat match goal with
         | |- context [match ?x with _ => _ end] => destruct x; simpl
         | |- context [if ?x then _ else _] => destruct x; simpl
         end; congruence.
Qed.





End FsFacts.

(** ** Enumeration *)

Module RglobFacts.
Import Fs PurePath PurePathFacts.

Lemma is_below_true (root p : path) :
  is_below root p = true ↔ ∃ q, q ≠ [] ∧ p = root ++ q.
Proof.
  unfold is_below. split.
  - destruct (relative_to p root) as [[|x q]|] eqn:E; try discriminate.
    intros _. exists (x :: q). split; [discriminate | now apply relative_to_Some].
  - intros (q & Hq & ->). rewrite relative_to_app. now destruct q.
Qed.

Lemma is_below_nonempty (root p : path) : is_below root p = true → p ≠ [].
Proof.
  intros (q & Hq & ->)%is_below_true. destruct root, q; simpl; congruence.
Qed.

(** What [rglob] yields: the existing entries strictly below the root
    whose name matches. *)
Lemma elem_of_rglob_list (fs : filesystem) (root : path) (pattern : string) (p : path) :
  p ∈ rglob_list fs root pattern ↔
    is_Some (fs !! p) ∧ is_below root p = true
    ∧ PyStr.glob pattern (name p) = true.
Proof.
  unfold rglob_list. rewrite list_elem_of_fmap. split.
  - intros ([q n] & -> & Hin). apply elem_of_map_to_list in Hin.
    apply map_lookup_filter_Some in Hin as [Hq HP]. simpl in *.
    apply andb_true_iff in HP as [? ?]. eauto.
  - intros ([n Hn] & Hb & Hg). exists (p, n). split; [reflexivity|].
    apply elem_of_map_to_list, map_lookup_filter_Some. split; [exact Hn|].
    simpl. now rewrite Hb, Hg.
Qed.

Lemma rglob_list_NoDup (fs : filesystem) (root : path) (pattern : string) :
  NoDup (rglob_list fs root pattern).
Proof. apply NoDup_fst_map_to_list. Qed.


(** Every enumerated entry has a relative path, whose last component is
    the entry's name and matches the pattern. *)
Lemma rglob_list_relative (fs : filesystem) (root : path) (pattern : string) (p : path) :
  p ∈ rglob_list fs root pattern →
  ∃ rel, rel ≠ [] ∧ p = root ++ rel ∧ relative_to p root = Some rel
         ∧ name rel = name p ∧ PyStr.glob pattern (name rel) = true.
Proof.
  intros (_ & Hb & Hg)%elem_of_rglob_list.
  apply is_below_true in Hb as (q & Hq & ->).
  exists q. rewrite relative_to_app, name_app in * by exact Hq. auto.
Qed.

End RglobFacts.

(** ** The loop bodies, run by run *)

Section Bodies.
Context `{Tools}.
Import PurePath PurePathFacts RglobFacts.

Lemma bind_ret_l {A B} (a : A) (k : A → M B) fs : bind (ret a) k fs = k a fs.
Proof. unfold bind, ret. simpl. now destruct (k a fs). Qed.

Lemma open_w_cases (p : path) (fs : filesystem) :
  (∃ e, Fs.open_w p fs = (Raise e, fs))
  ∨ (Fs.open_w p fs = (Ret tt, <[p := File ""]> fs) ∧ p ≠ []
     ∧ Fs.is_dir fs (parent p) = true ∧ Fs.is_dir fs p = false).
Proof.
  unfold Fs.open_w, Fs.is_dir.
  destruct (Fs.stat fs (parent p)) as [[]|] eqn:Ep; eauto.
  destruct (Fs.stat fs p) as [[]|] eqn:Eq; eauto;
    right; (split; [reflexivity|]); (split; [|auto]); intros ->; discriminate.
Qed.

(** [transcribe_audio], by what the model and [open] do. *)
Lemma transcribe_audio_run (audio_path txt_path : path) (model : handle) fs :
  transcribe_audio audio_path txt_path model fs =
    match whisper_transcribe model (Fs.stat fs audio_path) with
    | Raise e =>
        Run (Ret tt) fs
            [Ev_transcribe model audio_path; Ev_print (Msg_error_in_transcribe e)]
    | Ret text =>
        match (Fs.open_w txt_path fs).1 with
        | Raise e =>
            Run (Ret tt) fs
                [Ev_transcribe model audio_path; Ev_open_w txt_path;
                 Ev_print (Msg_error_in_transcribe e)]
        | Ret _ =>
            Run (Ret tt) (<[txt_path := File text]> fs)
                [Ev_transcribe model audio_path; Ev_open_w txt_path;
                 Ev_write txt_path text; Ev_exists txt_path;
                 Ev_print (Msg_transcription_saved txt_path);
                 Ev_stat txt_path; Ev_print (Msg_file_size (String.length text))]
        end
    end.
Proof.
  unfold transcribe_audio, report_transcription, try_except, model_transcribe, open_w,
    file_write, path_exists, path_st_size, prim, print, emit, bind. simpl.
  destruct (whisper_transcribe model (Fs.stat fs audio_path)) as [text|e]; simpl;
    [|reflexivity].
  destruct (open_w_cases txt_path fs) as [[e ->] | (-> & Hne & _)]; simpl; [reflexivity|].
  rewrite insert_insert_eq.
  unfold Fs.exists_. rewrite (FsFacts.stat_nonempty _ _ Hne), lookup_insert_eq.
  simpl. rewrite (FsFacts.stat_nonempty _ _ Hne), lookup_insert_eq. reflexivity.
Qed.

(** The [try] of [process_videos] turns every exception of
    [extract_audio] into a message. *)
Lemma extract_audio_guarded_run (video_file audio_path : path) fs :
  let r := extract_audio video_file audio_path fs in
  extract_audio_guarded video_file audio_path fs =
    match result r with
    | Ret _ => r
    | Raise e =>
        Run (Ret tt) (fs_after r)
            (trace r ++ [Ev_print (Msg_error_processing (name video_file) e)])
    end.
Proof.
  intros r. unfold extract_audio_guarded, try_except. fold r.
  destruct (result r); reflexivity.
Qed.

Lemma with_suffix_Some (rel : path) (suffix : string) :
  valid_suffix suffix = true → name rel ≠ "" →
  with_suffix rel suffix = Some (parent rel ++ [with_suffix_name (name rel) suffix]).
Proof.
  intros Hv Hn. unfold with_suffix. rewrite Hv. simpl.
  destruct (name rel); [congruence | reflexivity].
Qed.

(** One iteration of [process_videos]. *)
Lemma process_videos_body_run (vroot aroot video_file rel new : path) fs :
  relative_to video_file vroot = Some rel →
  with_suffix rel ".wav" = Some new →
  let audio_path := aroot ++ new in
  let d := parent audio_path in
  process_videos_body vroot aroot video_file fs =
    match (Fs.mkdir d true true fs).1 with
    | Raise e => Run (Raise e) fs [Ev_mkdir d true true]
    | Ret _ =>
        let r := extract_audio_guarded video_file audio_path (Fs.mkdir d true true fs).2 in
        Run (result r) (fs_after r)
            ([Ev_mkdir d true true; Ev_print (Msg_extracting_from rel)] ++ trace r)
    end.
Proof.
  intros Hrel Hnew audio_path d.
  unfold process_videos_body. rewrite Hrel. simpl or_value_error. rewrite bind_ret_l.
  rewrite Hnew. simpl or_value_error. rewrite bind_ret_l.
  unfold joinpath. fold audio_path. fold d.
  fold (extract_audio_guarded video_file audio_path).
  unfold bind at 1. unfold path_mkdir at 1 2 3. simpl.
  destruct (Fs.mkdir d true true fs).1 eqn:Em; simpl.
  - reflexivity.
  - now rewrite (FsFacts.mkdir_Raise _ _ _ _ _ Em).
Qed.

(** One iteration of [process_audio_files]. *)
Lemma process_audio_files_body_run (aroot rroot audio_file rel new : path)
    (model : handle) fs :
  relative_to audio_file aroot = Some rel →
  with_suffix rel ".txt" = Some new →
  let txt_path := rroot ++ new in
  let d := parent txt_path in
  process_audio_files_body aroot rroot model audio_file fs =
    match (Fs.mkdir d true true fs).1 with
    | Raise e => Run (Raise e) fs [Ev_mkdir d true true]
    | Ret _ =>
        let r := transcribe_audio audio_file txt_path model (Fs.mkdir d true true fs).2 in
        Run (result r) (fs_after r)
            ([Ev_mkdir d true true; Ev_print (Msg_transcribing rel)] ++ trace r)
    end.
Proof.
  intros Hrel Hnew txt_path d.
  unfold process_audio_files_body. rewrite Hrel. simpl or_value_error. rewrite bind_ret_l.
  rewrite Hnew. simpl or_value_error. rewrite bind_ret_l.
  unfold joinpath. fold txt_path. fold d.
  unfold bind at 1. unfold path_mkdir at 1 2 3. simpl.
  destruct (Fs.mkdir d true true fs).1 eqn:Em; simpl.
  - reflexivity.
  - now rewrite (FsFacts.mkdir_Raise _ _ _ _ _ Em).
Qed.

End Bodies.

(** ** C1: directory mirroring *)

Section Mirroring.
Context `{Tools}.
Import PyStr PyStrFacts PurePath PurePathFacts RglobFacts.

Lemma strip_extension_unfold (old nm : string) :
  strip_extension old nm =
    if String.eqb nm old then Some ""
    else match nm with
         | EmptyString => None
         | String c nm' => String c <$> strip_extension old nm'
         end.
Proof. now destruct nm. Qed.

Lemma strip_extension_app (old stem : string) :
  strip_extension old (stem +:+ old) = Some stem.
Proof.
  induction stem as [|c stem IH]; rewrite strip_extension_unfold.
  - simpl. now rewrite String.eqb_refl.
  - destruct (String.eqb_spec (String c stem +:+ old) old) as [E|_].
    + apply (f_equal String.length) in E. simpl in E. rewrite app_length in E. lia.
    + simpl. now rewrite IH.
Qed.

(** For a name with a non-empty stem, [with_suffix] gives the path the
    specification describes. *)
Lemma mirror_path_with_suffix (in_root out_root rel : path) (stem e new : string) :
  rel ≠ [] → name rel = stem +:+ String "." e →
  stem ≠ "" → e ≠ "" → rfind_dot e = None →
  mirror_path in_root out_root (String "." e) new (in_root ++ rel)
  = Some (out_root ++ parent rel ++ [with_suffix_name (name rel) new]).
Proof.
  intros Hrel Hn Hs He Hd. unfold mirror_path, change_extension.
  rewrite relative_to_app. simpl. rewrite Hn, strip_extension_app. simpl.
  now rewrite with_suffix_name_ext.
Qed.

(** Every event of [extract_audio] is a message, the probe of its input
    or the decode run from its input to its output. *)
Lemma extract_audio_decodes (input output : path) fs :
  Forall (extract_audio_event input output)
         (trace (extract_audio_guarded input output fs)).
Proof.
  unfold extract_audio_guarded, extract_audio. trace_forall; done.
Qed.

Lemma split_cons_ne {A} (x e : A) (l pre post : list A) :
  x :: l = pre ++ e :: post → x ≠ e → ∃ pre', pre = x :: pre' ∧ l = pre' ++ e :: post.
Proof.
  destruct pre as [|y pre]; simpl; intros [= -> ->]; [congruence | eauto].
Qed.

(** An enumerated entry, its relative path and its new name. *)
Lemma rglob_list_mirror (fs : filesystem) (root : path) (ext new : string) (p : path) :
  literal ext = true → valid_suffix new = true → ext ≠ "" →
  p ∈ Fs.rglob_list fs root (String "*" ext) →
  ∃ rel stem,
    rel ≠ [] ∧ p = root ++ rel ∧ relative_to p root = Some rel
    ∧ name p = name rel ∧ name rel = stem +:+ ext
    ∧ with_suffix rel new = Some (parent rel ++ [with_suffix_name (name rel) new]).
Proof.
  intros Hl Hv He Hp.
  destruct (rglob_list_relative _ _ _ _ Hp) as (rel & Hrel & -> & Hr & Hn & Hg).
  apply (glob_star _ _ Hl) in Hg as [stem Hs].
  exists rel, stem. repeat split; auto.
  apply with_suffix_Some; [exact Hv|]. rewrite Hs.
  destruct stem, ext; simpl; congruence.
Qed.

End Mirroring.

Import PyStr PyStrFacts PurePath PurePathFacts FsFacts RglobFacts.

(** C1, as amended. Every decode run of [process_videos] reads an
    enumerated video [vroot/rel] and writes to
    [aroot / rel.with_suffix(".wav")], after the directory of that path has
    been created; when the name of the video has a non-empty stem before
    [.mp4] this is the path of the video relative to the video root with
    the extension changed to [.wav], below the audio root, and for a video
    named just [.mp4] it is [.mp4.wav] in the mirrored directory. Likewise
    every transcript [process_audio_files] opens is
    [rroot / rel.with_suffix(".txt")] for the audio file [aroot/rel] it has
    just given to the model, after the directory of the transcript has been
    created. *)
Theorem mirrored_outputs `{Tools} (vroot aroot rroot : path) (model : handle)
    (fs : filesystem) :
  (∀ pre cmd v out post,
     trace (process_videos vroot aroot fs) = pre ++ Ev_ffmpeg cmd v out :: post →
     ∃ rel stem,
       v ∈ Fs.rglob_list fs vroot "*.mp4" ∧ v = vroot ++ rel
       ∧ PurePath.name rel = stem +:+ ".mp4"
       ∧ out = aroot ++ PurePath.parent rel
                 ++ [PurePath.with_suffix_name (PurePath.name rel) ".wav"]
       ∧ (stem ≠ "" → mirror_path vroot aroot ".mp4" ".wav" v = Some out)
       ∧ (stem = "" → out = aroot ++ PurePath.parent rel ++ [".mp4.wav"])
       ∧ Ev_mkdir (PurePath.parent out) true true ∈ pre)
  ∧ (∀ pre txt post,
       trace (process_audio_files aroot rroot model fs) = pre ++ Ev_open_w txt :: post →
       ∃ a rel stem,
         a ∈ Fs.rglob_list fs aroot "*.wav" ∧ a = aroot ++ rel
         ∧ PurePath.name rel = stem +:+ ".wav"
         ∧ txt = rroot ++ PurePath.parent rel
                   ++ [PurePath.with_suffix_name (PurePath.name rel) ".txt"]
         ∧ (stem ≠ "" → mirror_path aroot rroot ".wav" ".txt" a = Some txt)
         ∧ (stem = "" → txt = rroot ++ PurePath.parent rel ++ [".wav.txt"])
         ∧ Ev_mkdir (PurePath.parent txt) true true ∈ pre
         ∧ Ev_transcribe model a ∈ pre).
Proof.
  split.
  - intros pre cmd v out post Ht. unfold process_videos in Ht.
    apply trace_bind_split in Ht as [[post' Ht] | (files & pre' & Hf & -> & Ht)].
    { destruct pre as [|? [|? ?]]; discriminate. }
    injection Hf as <-.
    apply trace_for_each_split in Ht as (x & fs' & pre0 & pre1 & post1 & Hx & -> & Ht).
    destruct (rglob_list_mirror fs vroot ".mp4" ".wav" x eq_refl eq_refl ltac:(discriminate) Hx)
      as (rel & stem & Hrel & -> & Hr & Hnx & Hn & Hw).
    rewrite (process_videos_body_run _ _ _ _ _ _ Hr Hw) in Ht.
    destruct (Fs.mkdir _ true true fs').1 eqn:Em; simpl in Ht.
    2:{ destruct pre1 as [|? [|? ?]]; discriminate. }
    apply split_cons_ne in Ht as (pre2 & -> & Ht); [|discriminate].
    apply split_cons_ne in Ht as (pre3 & -> & Ht); [|discriminate].
    pose proof (extract_audio_decodes (vroot ++ rel)
                  (aroot ++ PurePath.parent rel
                     ++ [PurePath.with_suffix_name (PurePath.name rel) ".wav"])
                  (Fs.mkdir (PurePath.parent
                     (aroot ++ PurePath.parent rel
                        ++ [PurePath.with_suffix_name (PurePath.name rel) ".wav"]))
                     true true fs').2) as Hd.
    rewrite Ht in Hd. apply Forall_app in Hd as [_ Hd].
    apply Forall_cons in Hd as [(-> & -> & ->) _].
    exists rel, stem. split; [exact Hx|]. split; [reflexivity|]. split; [exact Hn|].
    split; [reflexivity|]. split; [|split].
    + intros Hs.
      apply (mirror_path_with_suffix vroot aroot rel stem "mp4" ".wav");
        auto; discriminate.
    + intros ->. simpl in Hn. now rewrite Hn.
    + rewrite !elem_of_app, !elem_of_cons; eauto 10.
  - intros pre txt post Ht. unfold process_audio_files in Ht.
    apply trace_bind_split in Ht as [[post' Ht] | (files & pre' & Hf & -> & Ht)].
    { destruct pre as [|? [|? ?]]; discriminate. }
    injection Hf as <-.
    apply trace_for_each_split in Ht as (x & fs' & pre0 & pre1 & post1 & Hx & -> & Ht).
    destruct (rglob_list_mirror fs aroot ".wav" ".txt" x eq_refl eq_refl ltac:(discriminate) Hx)
      as (rel & stem & Hrel & -> & Hr & Hnx & Hn & Hw).
    rewrite (process_audio_files_body_run _ _ _ _ _ _ _ Hr Hw) in Ht.
    destruct (Fs.mkdir _ true true fs').1 eqn:Em; simpl in Ht.
    2:{ destruct pre1 as [|? [|? ?]]; discriminate. }
    apply split_cons_ne in Ht as (pre2 & -> & Ht); [|discriminate].
    apply split_cons_ne in Ht as (pre3 & -> & Ht); [|discriminate].
    rewrite transcribe_audio_run in Ht.
    assert (Hopen : txt = rroot ++ PurePath.parent rel
                            ++ [PurePath.with_suffix_name (PurePath.name rel) ".txt"]
                    ∧ Ev_transcribe model (aroot ++ rel) ∈ pre3).
    { destruct (whisper_transcribe model _) as [text|e]; simpl in Ht.
      - destruct (Fs.open_w _ _).1; simpl in Ht;
          (apply split_cons_ne in Ht as (pre4 & -> & Ht); [|discriminate]);
          (destruct pre4 as [|? pre4]; simpl in Ht;
           [injection Ht as -> _; split; [reflexivity | left]|]);
          injection Ht as _ Ht;
          repeat (destruct pre4 as [|? pre4]; simpl in Ht; try discriminate;
                  injection Ht as _ Ht).
      - apply split_cons_ne in Ht as (pre4 & -> & Ht); [|discriminate].
        destruct pre4 as [|? [|? ?]]; discriminate. }
    destruct Hopen as [-> Htr].
    exists (aroot ++ rel), rel, stem. split; [exact Hx|]. split; [reflexivity|].
    split; [exact Hn|]. split; [reflexivity|]. split; [|split; [|split]].
    + intros Hs.
      apply (mirror_path_with_suffix aroot rroot rel stem "wav" ".txt");
        auto; discriminate.
    + intros ->. simpl in Hn. now rewrite Hn.
    + rewrite !elem_of_app, !elem_of_cons; eauto 10.
    + rewrite !elem_of_app, !elem_of_cons; eauto 10.
Qed.

Lemma mirrored_outputs_witness :
  let t := trace (@process_videos Sample.tools ["videos"] ["audio"] Sample.fs_one) in
  ∃ rel stem,
    ["videos"; "a.mp4"] ∈ Fs.rglob_list Sample.fs_one ["videos"] "*.mp4"
    ∧ ["videos"; "a.mp4"] = ["videos"] ++ rel
    ∧ PurePath.name rel = stem +:+ ".mp4"
    ∧ ["audio"; "a.wav"] = ["audio"] ++ PurePath.parent rel
                 ++ [PurePath.with_suffix_name (PurePath.name rel) ".wav"]
    ∧ (stem ≠ "" →
       mirror_path ["videos"] ["audio"] ".mp4" ".wav" ["videos"; "a.mp4"]
       = Some ["audio"; "a.wav"])
    ∧ (stem = "" → ["audio"; "a.wav"]
                   = ["audio"] ++ PurePath.parent rel ++ [".mp4.wav"])
    ∧ Ev_mkdir (PurePath.parent ["audio"; "a.wav"]) true true ∈ take 4 t.
Proof.
  intros t.
  apply (proj1 (@mirrored_outputs Sample.tools ["videos"] ["audio"] ["results"] tt
                  Sample.fs_one)
           (take 4 t)
           (@ffmpeg_command ["videos"; "a.mp4"] ["audio"; "a.wav"])
           ["videos"; "a.mp4"] ["audio"; "a.wav"] (drop 5 t)).
  vm_compute. reflexivity.
Defined.

(** C1 as stated fails for a video named just [.mp4]: the decode run
    writes [audio/.mp4.wav], not the path with the extension changed,
    [audio/.wav]. *)
Lemma mirrored_outputs_bare_extension :
  let r := @process_videos Sample.tools ["videos"] ["audio"] Sample.fs_bare in
  ¬ (∀ pre cmd v out post,
       trace r = pre ++ Ev_ffmpeg cmd v out :: post →
       mirror_path ["videos"] ["audio"] ".mp4" ".wav" v = Some out).
Proof.
  intros r Hall.
  specialize (Hall (take 4 (trace r))
                (@ffmpeg_command ["videos"; ".mp4"] ["audio"; ".mp4.wav"])
                ["videos"; ".mp4"] ["audio"; ".mp4.wav"] (drop 5 (trace r))).
  vm_compute in Hall. specialize (Hall eq_refl). discriminate Hall.
Qed.

(** ** The shape of a run of [main] *)

Section MainShape.
Context `{Tools}.

Lemma trace_bind {A B} (m : M A) (k : A → M B) fs :
  trace (bind m k fs) =
    trace (m fs) ++ match result (m fs) with
                    | Ret a => trace (k a (fs_after (m fs)))
                    | Raise _ => []
                    end.
Proof. unfold bind. destruct (result (m fs)); simpl; [reflexivity | now rewrite app_nil_r]. Qed.

Lemma bind_Ret_inv {A B} (m : M A) (k : A → M B) fs b :
  result (bind m k fs) = Ret b →
  ∃ a, result (m fs) = Ret a ∧ result (k a (fs_after (m fs))) = Ret b.
Proof. unfold bind. destruct (result (m fs)) eqn:E; simpl; [eauto | discriminate]. Qed.

Lemma bind_prim {A B : Type} (e : event) (f : filesystem → outcome A * filesystem)
    (k : A → M B) fs :
  bind (prim e f) k fs =
    match (f fs).1 with
    | Ret a =>
        let r := k a (f fs).2 in
        Run (result r) (fs_after r) (e :: trace r)
    | Raise x => Run (Raise x) (f fs).2 [e]
    end.
Proof. unfold bind, prim. simpl. now destruct (f fs).1. Qed.

Lemma bind_print {B : Type} (m : message) (k : unit → M B) fs :
  bind (print m) k fs =
    let r := k tt fs in Run (result r) (fs_after r) (Ev_print m :: trace r).
Proof. reflexivity. Qed.

(** [main] creates the two roots, loads the model and goes on with
    [main_after_load]; a failure of one of the three ends the run. *)
Lemma main_run (argv : list string) fs :
  let mk_audio := Ev_mkdir audio_folder false true in
  let mk_results := Ev_mkdir results_folder false true in
  let fs1 := (Fs.mkdir audio_folder false true fs).2 in
  let fs2 := (Fs.mkdir results_folder false true fs1).2 in
  main argv fs =
    match (Fs.mkdir audio_folder false true fs).1 with
    | Raise e => Run (Raise e) fs [mk_audio]
    | Ret _ =>
        match (Fs.mkdir results_folder false true fs1).1 with
        | Raise e => Run (Raise e) fs1 [mk_audio; mk_results]
        | Ret _ =>
            match whisper_load_model "base" with
            | Raise e =>
                Run (Raise e) fs2
                    [mk_audio; mk_results; Ev_print Msg_loading_model;
                     Ev_load_model "base"]
            | Ret model =>
                let r := main_after_load argv model fs2 in
                Run (result r) (fs_after r)
                    ([mk_audio; mk_results; Ev_print Msg_loading_model;
                      Ev_load_model "base"] ++ trace r)
            end
        end
    end.
Proof.
  intros mk_audio mk_results fs1 fs2.
  unfold main, path_mkdir, load_model. rewrite bind_prim.
  destruct (Fs.mkdir audio_folder false true fs).1 eqn:E1.
  2:{ now rewrite (FsFacts.mkdir_Raise _ _ _ _ _ E1). }
  fold fs1. rewrite bind_prim.
  destruct (Fs.mkdir results_folder false true fs1).1 eqn:E2.
  2:{ now rewrite (FsFacts.mkdir_Raise _ _ _ _ _ E2). }
  fold fs2. rewrite bind_print, bind_prim. simpl.
  destruct (whisper_load_model "base") as [model|e]; reflexivity.
Qed.

Lemma is_below_app (root rel : path) : rel ≠ [] → Fs.is_below root (root ++ rel) = true.
Proof. intros Hr. apply is_below_true. eauto. Qed.

Lemma mirrored_parent_prefix (root rel : path) (nm : string) :
  root `prefix_of` parent (root ++ parent rel ++ [nm]).
Proof. rewrite app_assoc, parent_snoc. now eexists. Qed.

Lemma mirrored_below (root rel : path) (nm : string) :
  Fs.is_below root (root ++ parent rel ++ [nm]) = true.
Proof. apply is_below_app. now destruct (parent rel). Qed.

(** Every event of the extraction phase is one the phase may do. *)
Lemma process_videos_events (vroot aroot : path) fs :
  Forall (extraction_phase_event vroot aroot) (trace (process_videos vroot aroot fs)).
Proof.
  unfold process_videos. apply trace_bind_Forall.
  { apply trace_prim_Forall. now split. }
  intros files [= <-]. simpl fs_after.
  apply trace_for_each_Forall. intros x fs' Hx.
  destruct (rglob_list_mirror fs vroot ".mp4" ".wav" x eq_refl eq_refl
              ltac:(discriminate) Hx)
    as (rel & stem & Hrel & -> & Hr & Hnx & Hn & Hw).
  rewrite (process_videos_body_run _ _ _ _ _ _ Hr Hw).
  destruct (Fs.mkdir _ true true fs').1; simpl.
  2:{ repeat constructor. apply mirrored_parent_prefix. }
  constructor; [apply mirrored_parent_prefix|]. constructor; [exact I|].
  eapply Forall_impl; [apply extract_audio_decodes|].
  intros [] He; simpl in *; try done.
  - destruct He as (_ & ->). now apply is_below_app.
  - destruct He as (_ & -> & ->). split; [now apply is_below_app | apply mirrored_below].
Qed.

(** Every event of the transcription phase is one the phase may do. *)
Lemma process_audio_files_events (aroot rroot : path) (model : handle) fs :
  Forall (transcription_phase_event aroot rroot model)
         (trace (process_audio_files aroot rroot model fs)).
Proof.
  unfold process_audio_files. apply trace_bind_Forall.
  { apply trace_prim_Forall. now split. }
  intros files [= <-]. simpl fs_after.
  apply trace_for_each_Forall. intros x fs' Hx.
  destruct (rglob_list_mirror fs aroot ".wav" ".txt" x eq_refl eq_refl
              ltac:(discriminate) Hx)
    as (rel & stem & Hrel & -> & Hr & Hnx & Hn & Hw).
  rewrite (process_audio_files_body_run _ _ _ _ _ _ _ Hr Hw).
  destruct (Fs.mkdir _ true true fs').1; simpl.
  2:{ repeat constructor. apply mirrored_parent_prefix. }
  constructor; [apply mirrored_parent_prefix|]. constructor; [exact I|].
  rewrite transcribe_audio_run.
  pose proof (is_below_app aroot rel Hrel).
  pose proof (mirrored_below rroot rel (with_suffix_name (name rel) ".txt")).
  destruct (whisper_transcribe model _); [destruct (Fs.open_w _ _).1|];
    simpl; repeat constructor; auto.
Qed.

(** Every event of the report is one the report may do. *)
Lemma report_results_events fs :
  Forall (report_event results_folder) (trace (report_results fs)).
Proof.
  unfold report_results. apply trace_bind_Forall.
  { apply trace_prim_Forall. now split. }
  intros files [= <-]. simpl fs_after.
  apply trace_bind_Forall; [now apply trace_print_Forall|]. intros _ _.
  apply trace_for_each_Forall. intros x fs' Hx.
  apply elem_of_rglob_list in Hx as (_ & Hb & _).
  trace_forall; done.
Qed.

(** The listing that opens the full pipeline. *)
Lemma listing_events (l : list path) fs :
  Forall (extraction_phase_event videos_folder audio_folder)
         (trace (for_each l (λ video_file, print (Msg_path video_file)) fs)).
Proof. trace_forall. done. Qed.

Lemma bind_cases {A B : Type} (m : M A) (k : A → M B) fs :
  bind m k fs =
    match result (m fs) with
    | Ret a =>
        Run (result (k a (fs_after (m fs)))) (fs_after (k a (fs_after (m fs))))
            (trace (m fs) ++ trace (k a (fs_after (m fs))))
    | Raise e => Run (Raise e) (fs_after (m fs)) (trace (m fs))
    end.
Proof. reflexivity. Qed.

Lemma listing_run (l : list path) fs :
  for_each l (λ video_file, print (Msg_path video_file)) fs =
    Run (Ret tt) fs ((λ v, Ev_print (Msg_path v)) <$> l).
Proof.
  induction l as [|x l IH]; simpl; [reflexivity|].
  rewrite bind_print. simpl. now rewrite IH.
Qed.

(** The full pipeline: the listing, the extraction and, when that
    returns, the transcription. *)
Lemma full_pipeline_run (model : handle) fs :
  let head := Ev_print Msg_extracting_from_videos
              :: Ev_rglob videos_folder "*.mp4"
              :: ((λ v, Ev_print (Msg_path v)) <$> Fs.rglob_list fs videos_folder "*.mp4") in
  let rv := process_videos videos_folder audio_folder fs in
  let ra := process_audio_files audio_folder results_folder model (fs_after rv) in
  full_pipeline model fs =
    match result rv with
    | Raise e => Run (Raise e) (fs_after rv) (head ++ trace rv)
    | Ret _ =>
        Run (result ra) (fs_after ra)
            (head ++ trace rv ++ Ev_print Msg_transcribing_audio_files :: trace ra)
    end.
Proof.
  intros head rv ra. unfold full_pipeline.
  rewrite bind_print. cbv zeta. unfold rglob. rewrite bind_prim. cbn [fst snd].
  rewrite bind_cases, listing_run. cbn [result fs_after trace].
  rewrite bind_cases. fold rv. destruct (result rv); [|reflexivity].
  rewrite bind_print. fold ra. cbn [result fs_after trace].
  subst head. cbn [app]. now rewrite <- ?app_assoc.
Qed.

Lemma transcription_only_run (model : handle) fs :
  let ra := process_audio_files audio_folder results_folder model fs in
  transcription_only model fs =
    Run (result ra) (fs_after ra) (Ev_print Msg_transcribing_audio_files :: trace ra).
Proof. reflexivity. Qed.

Lemma main_after_load_run (argv : list string) (model : handle) fs :
  let r := (if processaudio_requested argv then transcription_only model
            else full_pipeline model) fs in
  let rr := report_results (fs_after r) in
  main_after_load argv model fs =
    match result r with
    | Raise e => Run (Raise e) (fs_after r) (trace r)
    | Ret _ => Run (result rr) (fs_after rr) (trace r ++ trace rr)
    end.
Proof.
  intros r rr. unfold main_after_load, bind.
  destruct (processaudio_requested argv); fold r; destruct (result r); reflexivity.
Qed.

(** In a trace made of a part without events [Q] and a part without
    events [X], no [X] follows a [Q]. *)
Lemma ordered_app (Q X : event → Prop) (t1 t2 : list event) :
  Forall (λ e, ¬ Q e) t1 → Forall (λ e, ¬ X e) t2 →
  ∀ pre e post, t1 ++ t2 = pre ++ e :: post → Q e → Forall (λ e', ¬ X e') post.
Proof.
  intros H1 H2 pre e post Ht He.
  apply app_eq_inv in Ht as [(k & -> & Hk) | (k & -> & ->)].
  - destruct k as [|e' k]; simpl in Hk.
    + rewrite <- Hk in H2. now apply Forall_cons in H2 as [_ ?].
    + injection Hk as <- ->. apply Forall_app in H1 as [_ H1].
      apply Forall_cons in H1 as [H1 _]. contradiction.
  - apply Forall_app in H2 as [_ H2]. now apply Forall_cons in H2 as [_ ?].
Qed.

Lemma below_outside_videos (x : string) (p : path) :
  x ≠ "videos" → Fs.is_below [x] p = true → outside_videos p.
Proof.
  intros Hx (q & Hq & ->)%is_below_true. split; [discriminate|].
  intros [k Hk]. simpl in Hk. congruence.
Qed.

Lemma prefix_outside_videos (x : string) (p : path) :
  x ≠ "videos" → [x] `prefix_of` p → outside_videos p.
Proof.
  intros Hx [q ->]. split; [discriminate|].
  intros [k Hk]. simpl in Hk. congruence.
Qed.

Lemma root_outside_videos (x : string) : x ≠ "videos" → outside_videos [x].
Proof. intros Hx. apply (prefix_outside_videos x); [exact Hx | now exists []]. Qed.

Lemma transcription_phase_outside (model : handle) (e : event) :
  transcription_phase_event audio_folder results_folder model e →
  ¬ is_extraction e ∧ Forall outside_videos (event_paths e).
Proof.
  destruct e; simpl; try done;
    repeat match goal with b : bool |- _ => destruct b end; try done;
    intros Hp; (split; [try tauto|]); try (constructor; [|constructor]).
  - constructor.
  - destruct Hp as [-> _]. discriminate.
  - destruct Hp as [-> _]. apply root_outside_videos. discriminate.
  - apply (prefix_outside_videos "results"); [discriminate | exact Hp].
  - apply (below_outside_videos "audio"); [discriminate | tauto].
  - apply (below_outside_videos "results"); [discriminate | exact Hp].
  - apply (below_outside_videos "results"); [discriminate | exact Hp].
  - apply (below_outside_videos "results"); [discriminate | exact Hp].
  - apply (below_outside_videos "results"); [discriminate | exact Hp].
Qed.

Lemma report_outside (e : event) :
  report_event results_folder e →
  ¬ is_extraction e ∧ ¬ is_transcription e ∧ Forall outside_videos (event_paths e).
Proof.
  destruct e; simpl; try done; intros Hp.
  - split; [tauto|]. split; [tauto|]. constructor.
  - destruct Hp as [-> _]. split; [discriminate|]. split; [discriminate|].
    constructor; [|constructor]. apply root_outside_videos. discriminate.
  - split; [tauto|]. split; [tauto|]. constructor; [|constructor].
    apply (below_outside_videos "results"); [discriminate | exact Hp].
Qed.

Lemma extraction_phase_no_transcription (e : event) :
  extraction_phase_event videos_folder audio_folder e → ¬ is_transcription e.
Proof.
  destruct e; simpl;
    repeat match goal with b : bool |- _ => destruct b end; try tauto.
  intros [-> _]. discriminate.
Qed.

(** A run of [main] that gets past the load of the model. *)
Lemma main_loaded (argv : list string) fs :
  (∃ e t, result (main argv fs) = Raise e ∧ trace (main argv fs) = t
          ∧ t `prefix_of` setup_trace
          ∧ (Ev_load_model "base" ∈ t → whisper_load_model "base" = Raise e))
  ∨ (∃ model, whisper_load_model "base" = Ret model
       ∧ let r := main_after_load argv model (after_setup fs) in
         main argv fs = Run (result r) (fs_after r) (setup_trace ++ trace r)).
Proof.
  rewrite main_run. cbv zeta. unfold setup_trace.
  destruct (Fs.mkdir audio_folder false true fs).1 eqn:E1.
  2:{ left. exists e, [Ev_mkdir audio_folder false true].
      split; [reflexivity|]. split; [reflexivity|].
      split; [now eexists|]. intros Hin.
      rewrite !elem_of_cons in Hin. destruct Hin as [|Hin]; try discriminate.
      now apply elem_of_nil in Hin. }
  destruct (Fs.mkdir results_folder false true _).1 eqn:E2.
  2:{ left. exists e, [Ev_mkdir audio_folder false true; Ev_mkdir results_folder false true].
      split; [reflexivity|]. split; [reflexivity|].
      split; [now eexists|]. intros Hin.
      rewrite !elem_of_cons in Hin. destruct Hin as [|[|Hin]]; try discriminate.
      now apply elem_of_nil in Hin. }
  destruct (whisper_load_model "base") as [model|e] eqn:E3.
  - right. exists model. split; reflexivity.
  - left. exists e, setup_trace. split; [reflexivity|]. split; [reflexivity|].
    split; [now exists []|]. reflexivity.
Qed.

Lemma report_results_fs fs : fs_after (report_results fs) = fs.
Proof.
  unfold report_results, rglob. rewrite bind_prim. cbn [fst snd fs_after].
  rewrite bind_print. cbn [fs_after].
  generalize (Fs.rglob_list fs results_folder "*.txt"). intros l.
  induction l as [|x l IH]; [reflexivity|].
  rewrite for_each_cons, bind_cases.
  assert (Hx : fs_after
                 ((relative <- or_value_error (relative_to x results_folder)
                                 "is not in the subpath" ;;
                   size <- path_st_size x ;;
                   print (Msg_result relative size)) fs) = fs).
  { destruct (relative_to x results_folder); simpl or_value_error.
    - rewrite bind_ret_l. unfold path_st_size. rewrite bind_prim.
      destruct (Fs.stat fs x) as [[]|]; reflexivity.
    - reflexivity. }
  destruct (result _); cbn [fs_after]; rewrite Hx; [exact IH | reflexivity].
Qed.

End MainShape.

Section ModeSelection.
Context `{Tools}.

Lemma processaudio_requested_true (argv : list string) :
  processaudio_requested argv = true ↔ argv !! 1 = Some "processaudio".
Proof.
  unfold processaudio_requested.
  destruct argv as [|a [|b l]]; simpl; try (split; discriminate).
  rewrite String.eqb_eq. split; [intros -> | intros [= ->]]; reflexivity.
Qed.

Lemma setup_outside :
  Forall (λ e, ¬ is_extraction e ∧ ¬ is_transcription e
               ∧ Forall outside_videos (event_paths e)) setup_trace.
Proof.
  unfold setup_trace.
  repeat constructor; simpl; try tauto;
    apply root_outside_videos; discriminate.
Qed.

(** With [processaudio], nothing is extracted and no path of the video
    tree is touched. *)
Lemma transcription_only_outside (argv : list string) fs :
  processaudio_requested argv = true →
  Forall (λ e, ¬ is_extraction e ∧ Forall outside_videos (event_paths e))
         (trace (main argv fs)).
Proof.
  intros Hmode.
  destruct (main_loaded argv fs) as [(e & t & _ & -> & [k Hk] & _) | (model & _ & ->)].
  - pose proof setup_outside as Hs. rewrite Hk in Hs.
    apply Forall_app in Hs as [Hs _].
    eapply Forall_impl; [exact Hs|]. simpl. tauto.
  - cbn [trace]. apply Forall_app. split.
    { eapply Forall_impl; [exact setup_outside|]. simpl. tauto. }
    rewrite main_after_load_run, Hmode. cbv zeta.
    rewrite transcription_only_run. cbv zeta. cbn [result fs_after trace].
    assert (Ha : Forall (λ e, ¬ is_extraction e ∧ Forall outside_videos (event_paths e))
                   (Ev_print Msg_transcribing_audio_files
                    :: trace (process_audio_files audio_folder results_folder model
                                (after_setup fs)))).
    { constructor; [split; [simpl; tauto | constructor]|].
      eapply Forall_impl; [apply process_audio_files_events|].
      intros e. apply transcription_phase_outside. }
    destruct (result _); cbn [trace]; [|exact Ha].
    apply Forall_app. split; [exact Ha|].
    eapply Forall_impl; [apply report_results_events|].
    intros e He. apply report_outside in He. tauto.
Qed.

(** Without it, no extraction event follows a transcription event. *)
Lemma full_pipeline_ordered (argv : list string) fs :
  processaudio_requested argv = false →
  ∃ t1 t2, trace (main argv fs) = t1 ++ t2
           ∧ Forall (λ e, ¬ is_transcription e) t1
           ∧ Forall (λ e, ¬ is_extraction e) t2.
Proof.
  intros Hmode.
  destruct (main_loaded argv fs) as [(e & t & _ & -> & [k Hk] & _) | (model & _ & ->)].
  - exists t, []. rewrite app_nil_r. split; [reflexivity|]. split; [|constructor].
    pose proof setup_outside as Hs. rewrite Hk in Hs.
    apply Forall_app in Hs as [Hs _].
    eapply Forall_impl; [exact Hs|]. simpl. tauto.
  - cbn [trace]. rewrite main_after_load_run, Hmode. cbv zeta.
    rewrite full_pipeline_run. cbv zeta.
    set (rv := process_videos videos_folder audio_folder (after_setup fs)).
    set (ra := process_audio_files audio_folder results_folder model (fs_after rv)).
    set (head := Ev_print Msg_extracting_from_videos :: _).
    assert (Hhead : Forall (λ e, ¬ is_transcription e) (setup_trace ++ head ++ trace rv)).
    { apply Forall_app. split.
      { eapply Forall_impl; [exact setup_outside|]. simpl. tauto. }
      apply Forall_app. split.
      - subst head. constructor; [simpl; tauto|]. constructor; [simpl; discriminate|].
        apply Forall_fmap. apply Forall_true. intros x. simpl. tauto.
      - eapply Forall_impl; [apply process_videos_events|].
        apply extraction_phase_no_transcription. }
    assert (Hra : Forall (λ e, ¬ is_extraction e)
                    (Ev_print Msg_transcribing_audio_files :: trace ra)).
    { constructor; [simpl; tauto|].
      eapply Forall_impl; [apply process_audio_files_events|].
      intros e He. now apply transcription_phase_outside in He. }
    destruct (result rv); cbn [result fs_after trace].
    2:{ exists (setup_trace ++ head ++ trace rv), [].
        rewrite app_nil_r. split; [reflexivity|]. split; [exact Hhead | constructor]. }
    destruct (result ra); cbn [trace].
    + exists (setup_trace ++ head ++ trace rv),
        ((Ev_print Msg_transcribing_audio_files :: trace ra)
           ++ trace (report_results (fs_after ra))).
      split; [now rewrite <- !app_assoc|]. split; [exact Hhead|].
      apply Forall_app. split; [exact Hra|].
      eapply Forall_impl; [apply report_results_events|].
      intros e He. apply report_outside in He. tauto.
    + exists (setup_trace ++ head ++ trace rv),
        (Ev_print Msg_transcribing_audio_files :: trace ra).
      split; [now rewrite <- !app_assoc|]. split; [exact Hhead | exact Hra].
Qed.

(** A run with [processaudio] that returns has loaded the model and
    run the transcription phase, and nothing else but the report. *)
Lemma transcription_only_completed (argv : list string) fs :
  processaudio_requested argv = true →
  result (main argv fs) = Ret tt →
  ∃ model,
    whisper_load_model "base" = Ret model
    ∧ let ra := process_audio_files audio_folder results_folder model (after_setup fs) in
      result ra = Ret tt
      ∧ fs_after (main argv fs) = fs_after ra
      ∧ trace (main argv fs) =
          setup_trace ++ Ev_print Msg_transcribing_audio_files :: trace ra
            ++ trace (report_results (fs_after ra)).
Proof.
  intros Hmode Hret.
  destruct (main_loaded argv fs) as [(e & t & Hr & _) | (model & Hload & Hm)];
    [congruence|].
  exists model. split; [exact Hload|]. cbv zeta in *. rewrite Hm in *.
  cbn [result fs_after trace] in *.
  rewrite main_after_load_run, Hmode in *. cbv zeta in *.
  rewrite transcription_only_run in *. cbv zeta in *. cbn [result fs_after trace] in *.
  destruct (result (process_audio_files _ _ _ _)) as [[]|]; [|discriminate].
  cbn [result fs_after trace] in *.
  split; [reflexivity|]. split; [apply report_results_fs|]. reflexivity.
Qed.

(** A run of the full pipeline that returns has loaded the model, run
    the extraction phase over the video root and then the transcription
    phase on the file system the extraction left. *)
Lemma full_pipeline_completed (argv : list string) fs :
  processaudio_requested argv = false →
  result (main argv fs) = Ret tt →
  ∃ model,
    whisper_load_model "base" = Ret model
    ∧ let rv := process_videos videos_folder audio_folder (after_setup fs) in
      let ra := process_audio_files audio_folder results_folder model (fs_after rv) in
      result rv = Ret tt ∧ result ra = Ret tt
      ∧ fs_after (main argv fs) = fs_after ra
      ∧ trace (main argv fs) =
          setup_trace
            ++ (Ev_print Msg_extracting_from_videos
                :: Ev_rglob videos_folder "*.mp4"
                :: ((λ v, Ev_print (Msg_path v))
                      <$> Fs.rglob_list (after_setup fs) videos_folder "*.mp4"))
            ++ trace rv
            ++ Ev_print Msg_transcribing_audio_files :: trace ra
            ++ trace (report_results (fs_after ra)).
Proof.
  intros Hmode Hret.
  destruct (main_loaded argv fs) as [(e & t & Hr & _) | (model & Hload & Hm)];
    [congruence|].
  exists model. split; [exact Hload|]. cbv zeta in *. rewrite Hm in *.
  cbn [result fs_after trace] in *.
  rewrite main_after_load_run, Hmode in *. cbv zeta in *.
  rewrite full_pipeline_run in *. cbv zeta in *.
  destruct (result (process_videos _ _ _)) as [[]|]; [|discriminate].
  cbn [result fs_after trace] in *.
  destruct (result (process_audio_files _ _ _ _)) as [[]|]; [|discriminate].
  cbn [result fs_after trace] in *.
  split; [reflexivity|]. split; [reflexivity|]. split; [apply report_results_fs|].
  now rewrite <- !app_assoc.
Qed.

End ModeSelection.

(** C2. The first argument selects the mode. With [processaudio] as first
    argument no extraction event occurs and no event touches the video root
    or anything below it, and a run that returns has run the transcription
    phase. With no argument or any other first argument no extraction
    event follows a transcription event, and a run that returns has run the
    extraction phase over the video root and then the transcription phase
    on the file system the extraction left. *)
Theorem mode_selection `{Tools} (argv : list string) (fs : filesystem) :
  (processaudio_requested argv = true ↔ argv !! 1 = Some "processaudio")
  ∧ (processaudio_requested argv = true →
       Forall (λ e, ¬ is_extraction e ∧ Forall outside_videos (event_paths e))
              (trace (main argv fs))
       ∧ (result (main argv fs) = Ret tt →
          ∃ model pre post,
            whisper_load_model "base" = Ret model
            ∧ let ra := process_audio_files audio_folder results_folder model
                          (after_setup fs) in
              result ra = Ret tt
              ∧ trace (main argv fs) = pre ++ trace ra ++ post))
  ∧ (processaudio_requested argv = false →
       (∀ pre e post,
          trace (main argv fs) = pre ++ e :: post →
          is_transcription e → Forall (λ e', ¬ is_extraction e') post)
       ∧ (result (main argv fs) = Ret tt →
          ∃ model pre mid post,
            whisper_load_model "base" = Ret model
            ∧ let rv := process_videos videos_folder audio_folder (after_setup fs) in
              let ra := process_audio_files audio_folder results_folder model
                          (fs_after rv) in
              result rv = Ret tt ∧ result ra = Ret tt
              ∧ trace (main argv fs) = pre ++ trace rv ++ mid ++ trace ra ++ post)).
Proof.
  split; [apply processaudio_requested_true|]. split.
  - intros Hmode. split; [now apply transcription_only_outside|].
    intros Hret.
    destruct (transcription_only_completed argv fs Hmode Hret)
      as (model & Hload & Hra & _ & Ht).
    exists model, (setup_trace ++ [Ev_print Msg_transcribing_audio_files]),
      (trace (report_results
                (fs_after (process_audio_files audio_folder results_folder model
                             (after_setup fs))))).
    split; [exact Hload|]. split; [exact Hra|].
    rewrite Ht. now rewrite <- !app_assoc.
  - intros Hmode. split.
    + destruct (full_pipeline_ordered argv fs Hmode) as (t1 & t2 & -> & H1 & H2).
      intros pre e post. now apply (ordered_app is_transcription is_extraction).
    + intros Hret.
      destruct (full_pipeline_completed argv fs Hmode Hret)
        as (model & Hload & Hrv & Hra & _ & Ht).
      exists model,
        (setup_trace
           ++ (Ev_print Msg_extracting_from_videos
               :: Ev_rglob videos_folder "*.mp4"
               :: ((λ v, Ev_print (Msg_path v))
                     <$> Fs.rglob_list (after_setup fs) videos_folder "*.mp4"))),
        [Ev_print Msg_transcribing_audio_files],
        (trace (report_results
                  (fs_after (process_audio_files audio_folder results_folder model
                     (fs_after (process_videos videos_folder audio_folder
                                  (after_setup fs))))))).
      split; [exact Hload|]. split; [exact Hrv|]. split; [exact Hra|].
      rewrite Ht. now rewrite <- !app_assoc.
Qed.

Lemma mode_selection_witness :
  Forall (λ e, ¬ is_extraction e ∧ Forall outside_videos (event_paths e))
         (trace (@main Sample.tools ["text-from-video.py"; "processaudio"] Sample.fs_tree))
  ∧ (∀ pre e post,
       trace (@main Sample.tools ["text-from-video.py"] Sample.fs_tree) = pre ++ e :: post →
       is_transcription e → Forall (λ e', ¬ is_extraction e') post).
Proof.
  split.
  - apply (@mode_selection Sample.tools ["text-from-video.py"; "processaudio"] Sample.fs_tree).
    reflexivity.
  - apply (@mode_selection Sample.tools ["text-from-video.py"] Sample.fs_tree).
    reflexivity.
Defined.

(** ** C3: a failed probe *)

Section ProbeFailure.
Context `{Tools}.



End ProbeFailure.



(** ** C4 and C5: how [extract_audio] ends *)

Section ExtractionOutcome.
Context `{Tools}.

(** A decode run returns only when the tool exits with status zero, and
    then the output holds exactly what the tool wrote. *)
Lemma ffmpeg_step_Ret (cmd : list string) (input output : path) fs c :
  (ffmpeg_step cmd input output fs).1 = Ret c →
  returncode c = 0%Z
  ∧ ∃ w, ffmpeg (Fs.stat fs input) = Decode_exit c w
         ∧ (ffmpeg_step cmd input output fs).2 =
             match w with
             | Some data => <[output := File data]> fs
             | None => fs
             end.
Proof.
  unfold ffmpeg_step, check_returncode, refused.
  destruct (ffmpeg (Fs.stat fs input)) as [e|c' [data|]]; cbn [fst snd];
    [discriminate| |].
  - destruct (negb _ && _).
    + cbn [fst snd returncode]. destruct (decide _); discriminate.
    + destruct (Fs.open_w output fs).1; cbn [fst snd returncode].
      * destruct (decide (returncode c' = 0%Z)); [|discriminate].
        intros [= <-]. eauto.
      * destruct (decide _); discriminate.
  - destruct (decide (returncode c' = 0%Z)); [|discriminate].
    intros [= <-]. eauto.
Qed.

(** A decode run changes nothing but its output file. *)
Lemma ffmpeg_step_fs (cmd : list string) (input output : path) fs :
  (ffmpeg_step cmd input output fs).2 = fs
  ∨ ∃ c data, ffmpeg (Fs.stat fs input) = Decode_exit c (Some data)
              ∧ (Fs.open_w output fs).1 = Ret tt
              ∧ (ffmpeg_step cmd input output fs).2 = <[output := File data]> fs.
Proof.
  unfold ffmpeg_step.
  destruct (ffmpeg (Fs.stat fs input)) as [e|c' [data|]]; cbn [fst snd]; auto.
  destruct (negb _ && _); cbn [fst snd]; auto.
  destruct (Fs.open_w output fs).1 as [[]|] eqn:Eo; cbn [fst snd]; eauto 10.
Qed.

(** Whatever the probe answers, one of the four cases applies. *)
Lemma probe_cases (fs : filesystem) (input : path) :
  (∃ e, ffprobe (Fs.stat fs input) = Spawn_failed e)
  ∨ (∃ c, ffprobe (Fs.stat fs input) = Exited c ∧ returncode c ≠ 0%Z)
  ∨ probe_blank fs input ∨ probe_ok fs input.
Proof.
  unfold probe_blank, probe_ok.
  destruct (ffprobe (Fs.stat fs input)) as [e|c]; [eauto|].
  destruct (decide (returncode c = 0%Z)); [|eauto].
  destruct (decide (PyStr.strip (stdout c) = "")); eauto 10.
Qed.

(** [extract_audio] changes nothing but its output file, and only
    through the decode run that follows a good probe. *)
Lemma extract_audio_fs (input output : path) fs :
  let r := extract_audio input output fs in
  fs_after r = fs
  ∨ (probe_ok fs input
     ∧ ∃ c data, ffmpeg (Fs.stat fs input) = Decode_exit c (Some data)
                 ∧ fs_after r = <[output := File data]> fs).
Proof.
  intros r. subst r.
  destruct (probe_cases fs input) as [[e Hp] | [(c & Hp & Hrc) | [Hb | Hok]]].
  - rewrite (extract_audio_probe_unavailable _ _ _ _ Hp). now left.
  - rewrite (extract_audio_probe_nonzero _ _ _ _ Hp Hrc). now left.
  - rewrite (extract_audio_probe_blank _ _ _ Hb). now left.
  - rewrite (extract_audio_probe_ok _ _ _ Hok). cbv zeta.
    assert (Hfs : ∀ (r : run unit),
               fs_after r = (ffmpeg_step (ffmpeg_command input output) input output fs).2 →
               fs_after r = fs
               ∨ (probe_ok fs input
                  ∧ ∃ c data, ffmpeg (Fs.stat fs input) = Decode_exit c (Some data)
                              ∧ fs_after r = <[output := File data]> fs)).
    { intros r ->.
      destruct (ffmpeg_step_fs (ffmpeg_command input output) input output fs)
        as [-> | (c & data & Hd & _ & ->)]; [now left | right; eauto]. }
    destruct (ffmpeg_step _ _ _ _).1 as [c|[]]; apply Hfs; reflexivity.
Qed.

End ExtractionOutcome.

(** C4, as amended. The guarded call of [extract_audio] in
    [process_videos] never raises. Either the probe was good and the decode
    tool exited with status zero, the success is reported and the audio
    path holds exactly what the tool wrote; or [extract_audio] raised and
    the run ends with the error message for that file, and if the failure
    came before the decode run (the probe was not good) the file system is
    unchanged and no decode run took place. In every case nothing but the
    audio path changes. (When the decode tool itself fails, the audio path
    holds whatever the tool left there.) *)
Theorem extraction_outcome `{Tools} (v out : path) (fs : filesystem) :
  let r := extract_audio_guarded v out fs in
  result r = Ret tt
  ∧ ((∃ c w,
        result (extract_audio v out fs) = Ret tt
        ∧ probe_ok fs v
        ∧ ffmpeg (Fs.stat fs v) = Decode_exit c w ∧ returncode c = 0%Z
        ∧ fs_after r = match w with
                       | Some data => <[out := File data]> fs
                       | None => fs
                       end
        ∧ Ev_print (Msg_audio_extracted out) ∈ trace r)
     ∨ (∃ e t,
          result (extract_audio v out fs) = Raise e
          ∧ trace r = t ++ [Ev_print (Msg_error_processing (PurePath.name v) e)]
          ∧ (¬ probe_ok fs v →
             fs_after r = fs ∧ Forall (λ ev, ¬ is_decode ev) (trace r))))
  ∧ (∀ p, p ≠ out → fs_after r !! p = fs !! p).
Proof.
  intros r. subst r. rewrite extract_audio_guarded_run. cbv zeta.
  split; [destruct (result (extract_audio v out fs)) as [[]|e] eqn:E;
          [exact E | reflexivity]|].
  split.
  - destruct (probe_cases fs v) as [[e Hp] | [(c & Hp & Hrc) | [Hb | Hok]]].
    + right. rewrite (extract_audio_probe_unavailable _ _ _ _ Hp). cbn [result fs_after trace].
      do 2 eexists. split; [reflexivity|]. split; [reflexivity|].
      intros _. split; [reflexivity|]. repeat constructor; simpl; tauto.
    + right. rewrite (extract_audio_probe_nonzero _ _ _ _ Hp Hrc).
      cbn [result fs_after trace].
      do 2 eexists. split; [reflexivity|]. split; [reflexivity|].
      intros _. split; [reflexivity|]. repeat constructor; simpl; tauto.
    + right. rewrite (extract_audio_probe_blank _ _ _ Hb). cbn [result fs_after trace].
      do 2 eexists. split; [reflexivity|]. split; [reflexivity|].
      intros _. split; [reflexivity|]. repeat constructor; simpl; tauto.
    + rewrite (extract_audio_probe_ok _ _ _ Hok). cbv zeta.
      destruct (ffmpeg_step (ffmpeg_command v out) v out fs).1 as [c|e] eqn:Es.
      * left. apply ffmpeg_step_Ret in Es as (Hrc & w & Hw & Hfs).
        exists c, w. cbn [result fs_after trace].
        split; [reflexivity|]. split; [exact Hok|]. split; [exact Hw|].
        split; [exact Hrc|]. split; [exact Hfs|].
        rewrite !elem_of_cons. auto.
      * right. exists e.
        destruct (ffmpeg_step_raises _ _ _ _ _ Es) as [(rc & o & err & ->) | (k & ->)];
          cbn [result fs_after trace]; eexists;
          (split; [reflexivity|]); (split; [reflexivity|]); intros Hn; contradiction.
  - intros p Hp.
    assert (Hfs : fs_after (extract_audio v out fs) !! p = fs !! p).
    { destruct (extract_audio_fs v out fs) as [-> | (_ & c & data & _ & ->)];
        [reflexivity | now apply lookup_insert_ne]. }
    destruct (result (extract_audio v out fs)); exact Hfs.
Qed.

Lemma extraction_outcome_witness :
  let fs := <[ ["audio"] := Dir ]> Sample.fs_empty_video in
  let r := @extract_audio_guarded Sample.tools ["videos"; "a.mp4"] ["audio"; "a.wav"] fs in
  fs_after r !! ["videos"; "b.mp4"] = fs !! ["videos"; "b.mp4"].
Proof.
  intros fs r.
  apply (proj2 (proj2 (@extraction_outcome Sample.tools ["videos"; "a.mp4"]
                         ["audio"; "a.wav"] fs))).
  discriminate.
Defined.

(** C4 as stated fails: a decode tool that writes part of the output and
    then exits with a nonzero status makes [extract_audio] fail with the
    truncated file left at the audio path. *)
Lemma extraction_not_atomic :
  let fs := <[ ["audio"] := Dir ]> Sample.fs_one in
  let r := @extract_audio Sample.tools_partial ["videos"; "a.mp4"] ["audio"; "a.wav"] fs in
  ¬ (raised (result r) = true → fs_after r !! ["audio"; "a.wav"] = fs !! ["audio"; "a.wav"]).
Proof.
  intros fs r Hc. specialize (Hc eq_refl). vm_compute in Hc. discriminate Hc.
Qed.

(** C5, the code at the failing input. When the probe exits with a nonzero
    status (which is what ffprobe does on a file it cannot read),
    [extract_audio] does not raise the [ValueError] of line 44: [check=True]
    raises [CalledProcessError], the class of a failed decode run, and the
    first handler reports it with the decode command. The file system is
    unchanged. *)
Theorem unreadable_probe_is_called_process_error `{Tools} (v out : path)
    (fs : filesystem) (c : completed) :
  ffprobe (Fs.stat fs v) = Exited c → returncode c ≠ 0%Z →
  let r := extract_audio v out fs in
  ∃ e, result r = Raise e
       ∧ e = CalledProcessError (ffprobe_command v) (returncode c) (stdout c) (stderr c)
       ∧ isinstance e Cls_CalledProcessError = true
       ∧ isinstance e Cls_ValueError = false
       ∧ e ≠ unreadable_error v
       ∧ fs_after r = fs
       ∧ trace r = [Ev_ffprobe (ffprobe_command v) v;
                    Ev_print (Msg_error_extracting v);
                    Ev_print (Msg_command (ffmpeg_command v out));
                    Ev_print (Msg_error_output (stderr c))].
Proof.
  intros Hp Hrc r. subst r. rewrite (extract_audio_probe_nonzero _ _ _ _ Hp Hrc).
  eexists. split; [reflexivity|]. split; [reflexivity|]. cbn [fs_after trace].
  repeat split; discriminate.
Qed.

Lemma unreadable_probe_is_called_process_error_witness :
  ∃ e, result (@extract_audio Sample.tools ["videos"; "gone.mp4"] ["audio"; "gone.wav"]
                 Sample.fs_one) = Raise e
       ∧ isinstance e Cls_ValueError = false.
Proof.
  destruct (@unreadable_probe_is_called_process_error Sample.tools
              ["videos"; "gone.mp4"] ["audio"; "gone.wav"] Sample.fs_one
              (Completed 1 "" "No such file or directory") eq_refl ltac:(discriminate))
    as (e & Hr & _ & _ & Hv & _).
  exists e. split; [exact Hr | exact Hv].
Defined.

(** ** C6: [transcribe_audio] contains its failures *)

(** C6. [transcribe_audio] always returns. When the model call raises, the
    exception is reported by the message of line 90 and nothing is written;
    when the transcript is absent at the check of line 84, the message of
    line 88 is printed and nothing is raised; and in the loop of
    [process_audio_files] the iteration ends as [transcribe_audio] does and
    the loop goes on with the remaining files. *)
Theorem transcribe_audio_never_raises `{Tools} (aroot rroot a rel new : path)
    (model : handle) (rest : list path) (fs : filesystem) :
  (∀ txt fs', result (transcribe_audio a txt model fs') = Ret tt)
  ∧ (∀ txt fs' e,
       whisper_transcribe model (Fs.stat fs' a) = Raise e →
       transcribe_audio a txt model fs' =
         Run (Ret tt) fs' [Ev_transcribe model a; Ev_print (Msg_error_in_transcribe e)])
  ∧ (∀ txt fs',
       Fs.exists_ fs' txt = false →
       report_transcription txt fs' =
         Run (Ret tt) fs' [Ev_exists txt; Ev_print (Msg_failed_to_create txt)])
  ∧ (PurePath.relative_to a aroot = Some rel →
     PurePath.with_suffix rel ".txt" = Some new →
     let txt := rroot ++ new in
     let body := process_audio_files_body aroot rroot model in
     (Fs.mkdir (PurePath.parent txt) true true fs).1 = Ret tt →
     let t := transcribe_audio a txt model (Fs.mkdir (PurePath.parent txt) true true fs).2 in
     let r := for_each (a :: rest) body fs in
     let r' := for_each rest body (fs_after t) in
     result r = result r' ∧ fs_after r = fs_after r'
     ∧ trace r = [Ev_mkdir (PurePath.parent txt) true true;
                  Ev_print (Msg_transcribing rel)] ++ trace t ++ trace r').
Proof.
  split; [|split; [|split]].
  - intros txt fs'. rewrite transcribe_audio_run.
    destruct (whisper_transcribe model _); [destruct (Fs.open_w _ _).1|]; reflexivity.
  - intros txt fs' e He. rewrite transcribe_audio_run, He. reflexivity.
  - intros txt fs' He. unfold report_transcription, path_exists.
    rewrite bind_prim. cbn [fst snd]. rewrite He. reflexivity.
  - intros Hrel Hnew txt body Hmk t r r'.
    assert (Ht : result t = Ret tt).
    { subst t. rewrite transcribe_audio_run.
      destruct (whisper_transcribe model _); [destruct (Fs.open_w _ _).1|]; reflexivity. }
    assert (Hbody : body a fs =
              Run (Ret tt) (fs_after t)
                  ([Ev_mkdir (PurePath.parent txt) true true;
                    Ev_print (Msg_transcribing rel)] ++ trace t)).
    { unfold body. rewrite (process_audio_files_body_run _ _ _ _ _ _ _ Hrel Hnew).
      fold txt. rewrite Hmk. cbv zeta. fold t. now rewrite Ht. }
    subst r r'. rewrite for_each_cons, bind_cases, Hbody.
    cbn [result fs_after trace]. repeat split.
Qed.

Lemma transcribe_audio_never_raises_witness :
  let fs := <[ ["audio"; "dir.wav"] := Dir ]> Sample.fs_tree in
  let body := @process_audio_files_body Sample.tools ["audio"] ["results"] tt in
  @transcribe_audio Sample.tools ["audio"; "dir.wav"] ["results"; "dir.txt"] tt fs
  = Run (Ret tt) fs
      [Ev_transcribe (tt : @handle Sample.tools) ["audio"; "dir.wav"];
       Ev_print (Msg_error_in_transcribe (OtherError "Failed to load audio"))]
  ∧ @report_transcription Sample.tools ["results"; "dir.txt"] fs
    = Run (Ret tt) fs [Ev_exists ["results"; "dir.txt"];
                       Ev_print (Msg_failed_to_create ["results"; "dir.txt"])]
  ∧ fs_after (for_each [["audio"; "dir.wav"]; ["audio"; "old.wav"]] body fs)
    = fs_after (for_each [["audio"; "old.wav"]] body
                  (fs_after (@transcribe_audio Sample.tools ["audio"; "dir.wav"]
                               ["results"; "dir.txt"] tt
                               (Fs.mkdir ["results"] true true fs).2))).
Proof.
  intros fs body.
  pose proof (@transcribe_audio_never_raises Sample.tools ["audio"] ["results"]
                ["audio"; "dir.wav"] ["dir.wav"] ["dir.txt"] tt
                [["audio"; "old.wav"]] fs) as (_ & Hmodel & Hcheck & Hloop).
  split; [|split].
  - apply Hmodel. reflexivity.
  - apply Hcheck. reflexivity.
  - apply (Hloop eq_refl eq_refl eq_refl).
Defined.


(** ** C8: the model is loaded once *)

Section ModelLoad.
Context `{Tools}.

Lemma count_loads_app (t1 t2 : list event) :
  count_loads (t1 ++ t2) = count_loads t1 + count_loads t2.
Proof. unfold count_loads. now rewrite filter_app, length_app. Qed.

Lemma count_loads_none (t : list event) :
  Forall (λ e, is_load e = false) t → count_loads t = 0.
Proof.
  unfold count_loads. induction 1 as [|e t He _ IH]; [reflexivity|].
  rewrite filter_cons. destruct (decide (is_load e = true)); [congruence | exact IH].
Qed.

Lemma count_loads_setup : count_loads setup_trace = 1.
Proof. reflexivity. Qed.

Lemma setup_no_processing : Forall (λ e, ¬ processes_file e) setup_trace.
Proof. repeat constructor; simpl; tauto. Qed.

Lemma extraction_phase_after_load (vroot aroot : path) (model : handle) (e : event) :
  extraction_phase_event vroot aroot e → after_load_event model e.
Proof.
  destruct e; simpl; repeat match goal with b : bool |- _ => destruct b end;
    try tauto; intros _; now split.
Qed.

Lemma transcription_phase_after_load (aroot rroot : path) (model : handle) (e : event) :
  transcription_phase_event aroot rroot model e → after_load_event model e.
Proof.
  destruct e; simpl; repeat match goal with b : bool |- _ => destruct b end;
    try tauto; intros He; split; tauto.
Qed.

Lemma report_after_load (rroot : path) (model : handle) (e : event) :
  report_event rroot e → after_load_event model e.
Proof. destruct e; simpl; try tauto; intros _; now split. Qed.

(** Once the model is loaded it is not loaded again, and it is the
    handle of every transcription. *)
Lemma main_after_load_events (argv : list string) (model : handle) fs :
  Forall (after_load_event model) (trace (main_after_load argv model fs)).
Proof.
  assert (Hrep : ∀ fs', Forall (after_load_event model) (trace (report_results fs'))).
  { intros fs'. eapply Forall_impl; [apply report_results_events|].
    apply report_after_load. }
  assert (Hpa : ∀ fs', Forall (after_load_event model)
                         (Ev_print Msg_transcribing_audio_files
                          :: trace (process_audio_files audio_folder results_folder
                                      model fs'))).
  { intros fs'. constructor; [now split|].
    eapply Forall_impl; [apply process_audio_files_events|].
    apply transcription_phase_after_load. }
  rewrite main_after_load_run. cbv zeta.
  destruct (processaudio_requested argv).
  - rewrite transcription_only_run. cbv zeta. cbn [result fs_after trace].
    destruct (result _); cbn [trace]; [apply Forall_app; split|]; auto.
  - rewrite full_pipeline_run. cbv zeta.
    set (rv := process_videos videos_folder audio_folder fs).
    assert (Hhead : Forall (after_load_event model)
                      ((Ev_print Msg_extracting_from_videos
                        :: Ev_rglob videos_folder "*.mp4"
                        :: ((λ v, Ev_print (Msg_path v))
                              <$> Fs.rglob_list fs videos_folder "*.mp4"))
                         ++ trace rv)).
    { apply Forall_app. split.
      - constructor; [now split|]. constructor; [now split|].
        apply Forall_fmap, Forall_true. intros x. now split.
      - eapply Forall_impl; [apply process_videos_events|].
        apply extraction_phase_after_load. }
    destruct (result rv); cbn [result fs_after trace]; [|exact Hhead].
    destruct (result _); cbn [trace].
    + apply Forall_app. split; [|apply Hrep].
      rewrite app_assoc. apply Forall_app. split; [exact Hhead | apply Hpa].
    + rewrite app_assoc. apply Forall_app. split; [exact Hhead | apply Hpa].
Qed.

End ModelLoad.

(** C8. The trace of [main] holds at most one load of the model, and
    exactly one when the run returns. Whatever event enumerates, reads or
    writes a file comes after the whole set-up, so after exactly one load;
    every transcription uses the handle that load returned. When the load
    raises, [main] raises (the exception of the load, once the load has
    been reached) and no file is enumerated, read or written. *)
Theorem model_loaded_once `{Tools} (argv : list string) (fs : filesystem) :
  let r := main argv fs in
  (count_loads (trace r) ≤ 1)%nat
  ∧ (result r = Ret tt → count_loads (trace r) = 1)
  ∧ (∀ pre e post,
       trace r = pre ++ e :: post → processes_file e →
       count_loads pre = 1 ∧ setup_trace `prefix_of` pre)
  ∧ (∀ pre m a post,
       trace r = pre ++ Ev_transcribe m a :: post → whisper_load_model "base" = Ret m)
  ∧ (∀ e, whisper_load_model "base" = Raise e →
       raised (result r) = true
       ∧ (Ev_load_model "base" ∈ trace r → result r = Raise e)
       ∧ Forall (λ ev, ¬ processes_file ev) (trace r)).
Proof.
  intros r. subst r.
  destruct (main_loaded argv fs) as [(e & t & Hr & Ht & [k Hk] & Hl) | (model & Hload & Hm)].
  - rewrite Ht, Hr.
    assert (Hcount : (count_loads t ≤ 1)%nat).
    { pose proof count_loads_setup as Hc. rewrite Hk, count_loads_app in Hc. lia. }
    assert (Hnp : Forall (λ ev, ¬ processes_file ev) t).
    { pose proof setup_no_processing as Hs. rewrite Hk in Hs.
      now apply Forall_app in Hs as [? _]. }
    split; [exact Hcount|]. split; [discriminate|]. split; [|split].
    + intros pre ev post -> Hev. apply Forall_app in Hnp as [_ Hnp].
      apply Forall_cons in Hnp as [Hnp _]. contradiction.
    + intros pre m a post ->. apply Forall_app in Hnp as [_ Hnp].
      apply Forall_cons in Hnp as [Hnp _]. simpl in Hnp. tauto.
    + intros e' He'. split; [reflexivity|]. split; [|exact Hnp].
      intros Hin. specialize (Hl Hin). congruence.
  - cbv zeta in Hm. rewrite Hm. cbn [result trace].
    pose proof (main_after_load_events argv model (after_setup fs)) as Hev.
    set (tr := trace (main_after_load argv model (after_setup fs))) in *.
    assert (Hnone : count_loads tr = 0).
    { apply count_loads_none. eapply Forall_impl; [exact Hev|]. now intros ? [? _]. }
    assert (Hsplit : ∀ pre ev post,
               setup_trace ++ tr = pre ++ ev :: post → processes_file ev →
               ∃ k, pre = setup_trace ++ k ∧ tr = k ++ ev :: post).
    { intros pre ev post Ht Hp.
      apply app_eq_inv in Ht as [(k & Hs & Hk) | (k & -> & ->)]; [|eauto].
      destruct k as [|ev' k]; simpl in Hk.
      - exists []. rewrite app_nil_r in *. auto.
      - injection Hk as <- _. pose proof setup_no_processing as Hn.
        rewrite Hs in Hn. apply Forall_app in Hn as [_ Hn].
        apply Forall_cons in Hn as [Hn _]. contradiction. }
    split; [rewrite count_loads_app, Hnone, count_loads_setup; lia|].
    split; [intros _; rewrite count_loads_app, Hnone, count_loads_setup; lia|].
    split; [|split].
    + intros pre ev post Ht Hp.
      destruct (Hsplit _ _ _ Ht Hp) as (k & -> & Hk). split; [|now exists k].
      rewrite count_loads_app, count_loads_setup.
      assert (count_loads k = 0); [|lia].
      apply count_loads_none. rewrite Hk in Hev.
      apply Forall_app in Hev as [Hev _].
      eapply Forall_impl; [exact Hev|]. now intros ? [? _].
    + intros pre m a post Ht.
      destruct (Hsplit _ _ _ Ht I) as (k & -> & Hk).
      rewrite Hk in Hev. apply Forall_app in Hev as [_ Hev].
      apply Forall_cons in Hev as [[_ Hm'] _]. simpl in Hm'. now subst m.
    + intros e He. congruence.
Qed.

Lemma model_loaded_once_witness :
  count_loads (trace (@main Sample.tools ["text-from-video.py"] Sample.fs_tree)) = 1
  ∧ raised (result (@main Sample.tools_no_model ["text-from-video.py"] Sample.fs_tree)) = true
  ∧ Forall (λ ev, ¬ processes_file ev)
           (trace (@main Sample.tools_no_model ["text-from-video.py"] Sample.fs_tree)).
Proof.
  split.
  - apply (@model_loaded_once Sample.tools ["text-from-video.py"] Sample.fs_tree).
    reflexivity.
  - pose proof (proj2 (proj2 (proj2 (proj2
        (@model_loaded_once Sample.tools_no_model ["text-from-video.py"] Sample.fs_tree))))
        (OtherError "checkpoint not found") eq_refl) as (Hr & _ & Hn).
    split; [exact Hr | exact Hn].
Defined.

(** ** C10: selection by extension *)

Section Selection.
Context `{Tools}.

Lemma probed_inputs_app (t1 t2 : list event) :
  probed_inputs (t1 ++ t2) = probed_inputs t1 ++ probed_inputs t2.
Proof. apply omap_app. Qed.

Lemma transcribed_inputs_app (t1 t2 : list event) :
  transcribed_inputs (t1 ++ t2) = transcribed_inputs t1 ++ transcribed_inputs t2.
Proof. apply omap_app. Qed.

(** The guarded call never raises and probes its input once. *)
Lemma extract_audio_guarded_probes (v out : path) fs :
  let r := extract_audio_guarded v out fs in
  result r = Ret tt ∧ probed_inputs (trace r) = [v].
Proof.
  intros r. subst r. rewrite extract_audio_guarded_run. cbv zeta.
  destruct (probe_cases fs v) as [[e Hp] | [(c & Hp & Hrc) | [Hb | Hok]]].
  - now rewrite (extract_audio_probe_unavailable _ _ _ _ Hp).
  - now rewrite (extract_audio_probe_nonzero _ _ _ _ Hp Hrc).
  - now rewrite (extract_audio_probe_blank _ _ _ Hb).
  - rewrite (extract_audio_probe_ok _ _ _ Hok). cbv zeta.
    destruct (ffmpeg_step _ _ _ _).1 as [c|[]]; now split.
Qed.

Lemma transcribe_audio_transcribes (a txt : path) (model : handle) fs :
  let r := transcribe_audio a txt model fs in
  result r = Ret tt ∧ transcribed_inputs (trace r) = [a].
Proof.
  intros r. subst r. rewrite transcribe_audio_run.
  destruct (whisper_transcribe model _); [destruct (Fs.open_w _ _).1|]; now split.
Qed.

(** The loop of [process_videos] probes the files of its list in order,
    all of them unless the creation of a directory raises. *)
Lemma process_videos_loop_probes (vroot aroot : path) (l : list path) fs :
  Forall (λ x, ∃ rel new, relative_to x vroot = Some rel
                          ∧ with_suffix rel ".wav" = Some new) l →
  let r := for_each l (process_videos_body vroot aroot) fs in
  probed_inputs (trace r) `prefix_of` l
  ∧ (result r = Ret tt → probed_inputs (trace r) = l).
Proof.
  intros Hl. revert fs. induction Hl as [|x l (rel & new & Hrel & Hnew) _ IH]; intros fs.
  { split; [now exists [] | reflexivity]. }
  cbv zeta. rewrite for_each_cons, bind_cases.
  rewrite (process_videos_body_run _ _ _ _ _ _ Hrel Hnew).
  destruct (Fs.mkdir _ true true fs).1 eqn:Em; cbv zeta; cbn [result fs_after trace].
  - destruct (extract_audio_guarded_probes x (aroot ++ new)
                (Fs.mkdir (parent (aroot ++ new)) true true fs).2) as [Hr Hp].
    cbv zeta in Hr, Hp. rewrite Hr. cbn [result fs_after trace].
    rewrite probed_inputs_app. cbn [app].
    change (probed_inputs (?a :: ?b :: ?t)) with (probed_inputs t).
    rewrite Hp. cbn [app].
    destruct (IH (fs_after (extract_audio_guarded x (aroot ++ new)
                              (Fs.mkdir (parent (aroot ++ new)) true true fs).2)))
      as [Hpre Heq].
    split; [now apply prefix_cons | intros Hret; f_equal; auto].
  - split; [apply prefix_nil | discriminate].
Qed.

(** The loop of [process_audio_files] gives the files of its list to the
    model in order, all of them unless the creation of a directory
    raises. *)
Lemma process_audio_files_loop_transcribes (aroot rroot : path) (model : handle)
    (l : list path) fs :
  Forall (λ x, ∃ rel new, relative_to x aroot = Some rel
                          ∧ with_suffix rel ".txt" = Some new) l →
  let r := for_each l (process_audio_files_body aroot rroot model) fs in
  transcribed_inputs (trace r) `prefix_of` l
  ∧ (result r = Ret tt → transcribed_inputs (trace r) = l).
Proof.
  intros Hl. revert fs. induction Hl as [|x l (rel & new & Hrel & Hnew) _ IH]; intros fs.
  { split; [now exists [] | reflexivity]. }
  cbv zeta. rewrite for_each_cons, bind_cases.
  rewrite (process_audio_files_body_run _ _ _ _ _ _ _ Hrel Hnew).
  destruct (Fs.mkdir _ true true fs).1 eqn:Em; cbv zeta; cbn [result fs_after trace].
  - destruct (transcribe_audio_transcribes x (rroot ++ new) model
                (Fs.mkdir (parent (rroot ++ new)) true true fs).2) as [Hr Hp].
    cbv zeta in Hr, Hp. rewrite Hr. cbn [result fs_after trace].
    rewrite transcribed_inputs_app. cbn [app].
    change (transcribed_inputs (?a :: ?b :: ?t)) with (transcribed_inputs t).
    rewrite Hp. cbn [app].
    destruct (IH (fs_after (transcribe_audio x (rroot ++ new) model
                              (Fs.mkdir (parent (rroot ++ new)) true true fs).2)))
      as [Hpre Heq].
    split; [now apply prefix_cons | intros Hret; f_equal; auto].
  - split; [apply prefix_nil | discriminate].
Qed.

Lemma rglob_list_mirrors (fs : filesystem) (root : path) (ext new : string) :
  literal ext = true → valid_suffix new = true → ext ≠ "" →
  Forall (λ x, ∃ rel nw, relative_to x root = Some rel ∧ with_suffix rel new = Some nw)
         (Fs.rglob_list fs root (String "*" ext)).
Proof.
  intros Hl Hv He. apply Forall_forall. intros x Hx.
  destruct (rglob_list_mirror fs root ext new x Hl Hv He Hx)
    as (rel & stem & _ & _ & Hr & _ & _ & Hw). eauto.
Qed.

(** What [rglob] selects for the pattern [*ext]. *)
Lemma rglob_list_extension (fs : filesystem) (root : path) (ext : string) (p : path) :
  literal ext = true →
  p ∈ Fs.rglob_list fs root (String "*" ext) ↔
    is_Some (fs !! p) ∧ Fs.is_below root p = true ∧ ∃ stem, name p = stem +:+ ext.
Proof.
  intros Hl. rewrite elem_of_rglob_list. now rewrite (glob_star _ _ Hl).
Qed.

Lemma string_app_inj_r (a b x y : string) :
  String.length x = String.length y → a +:+ x = b +:+ y → x = y.
Proof.
  intros Hlen. revert b. induction a as [|c a IH]; intros [|d b]; simpl; intros E.
  - exact E.
  - apply (f_equal String.length) in E. simpl in E. rewrite app_length in E. lia.
  - apply (f_equal String.length) in E. simpl in E. rewrite app_length in E. lia.
  - injection E as _ E. eauto.
Qed.

(** The match is literal: another extension, or the same in another case,
    is not selected. *)
Lemma glob_star_other (ext other : string) (stem : string) :
  literal ext = true → String.length other = String.length ext → other ≠ ext →
  PyStr.glob (String "*" ext) (stem +:+ other) = false.
Proof.
  intros Hl Hlen Hne. apply not_true_is_false. intros Hg.
  apply (glob_star _ _ Hl) in Hg as [stem' E].
  apply string_app_inj_r in E; [contradiction | exact Hlen].
Qed.

(** What the extraction phase probes, decodes or reports as failed is an
    enumerated file. *)
Lemma process_videos_file_events (vroot aroot : path) fs :
  Forall (extraction_file_event (Fs.rglob_list fs vroot "*.mp4"))
         (trace (process_videos vroot aroot fs)).
Proof.
  unfold process_videos. apply trace_bind_Forall.
  { now apply trace_prim_Forall. }
  intros files [= <-]. simpl fs_after.
  apply trace_for_each_Forall. intros x fs' Hx.
  destruct (rglob_list_mirror fs vroot ".mp4" ".wav" x eq_refl eq_refl
              ltac:(discriminate) Hx)
    as (rel & stem & Hrel & Hxe & Hr & Hnx & Hn & Hw).
  rewrite (process_videos_body_run _ _ _ _ _ _ Hr Hw).
  destruct (Fs.mkdir _ true true fs').1; cbv zeta; cbn [trace].
  2:{ now repeat constructor. }
  constructor; [exact I|]. constructor; [exact I|].
  eapply Forall_impl; [apply extract_audio_decodes|].
  intros [[]| | | | | | | | | |] He; simpl in *; try done.
  - now subst.
  - exists x. now subst.
  - now destruct He as (_ & ->).
  - now destruct He as (_ & -> & _).
Qed.

(** What the transcription phase gives to the model is an enumerated
    file. *)
Lemma process_audio_files_file_events (aroot rroot : path) (model : handle) fs :
  Forall (transcription_file_event (Fs.rglob_list fs aroot "*.wav"))
         (trace (process_audio_files aroot rroot model fs)).
Proof.
  unfold process_audio_files. apply trace_bind_Forall.
  { now apply trace_prim_Forall. }
  intros files [= <-]. simpl fs_after.
  apply trace_for_each_Forall. intros x fs' Hx.
  destruct (rglob_list_mirror fs aroot ".wav" ".txt" x eq_refl eq_refl
              ltac:(discriminate) Hx)
    as (rel & stem & Hrel & Hxe & Hr & Hnx & Hn & Hw).
  rewrite (process_audio_files_body_run _ _ _ _ _ _ _ Hr Hw).
  destruct (Fs.mkdir _ true true fs').1; cbv zeta; cbn [trace].
  2:{ now repeat constructor. }
  constructor; [exact I|]. constructor; [exact I|].
  rewrite transcribe_audio_run.
  destruct (whisper_transcribe model _); [destruct (Fs.open_w _ _).1|];
    cbn [trace]; repeat constructor; exact Hx.
Qed.

End Selection.

(** C10. [rglob] selects by the literal extension: an entry is enumerated
    for [*.mp4] (for [*.wav]) exactly when it exists strictly below the
    root and its name ends in [.mp4] (in [.wav]); a name with another
    extension of the same length, such as [.MP4], does not match.
    [process_videos] probes the enumerated entries in order, all of them
    when it returns, and probes, decodes or reports nothing else;
    [process_audio_files] gives the enumerated entries to the model in
    order, all of them when it returns, and nothing else. *)
Theorem selection_by_extension `{Tools} (vroot aroot rroot : path) (model : handle)
    (fs : filesystem) :
  let videos := Fs.rglob_list fs vroot "*.mp4" in
  let audios := Fs.rglob_list fs aroot "*.wav" in
  let rv := process_videos vroot aroot fs in
  let ra := process_audio_files aroot rroot model fs in
  (∀ p, p ∈ videos ↔
        is_Some (fs !! p) ∧ Fs.is_below vroot p = true
        ∧ ∃ stem, PurePath.name p = stem +:+ ".mp4")
  ∧ (∀ p, p ∈ audios ↔
          is_Some (fs !! p) ∧ Fs.is_below aroot p = true
          ∧ ∃ stem, PurePath.name p = stem +:+ ".wav")
  ∧ NoDup videos ∧ NoDup audios
  ∧ (∀ other stem, String.length other = 4 → other ≠ ".mp4" →
       PyStr.glob "*.mp4" (stem +:+ other) = false)
  ∧ (∀ other stem, String.length other = 4 → other ≠ ".wav" →
       PyStr.glob "*.wav" (stem +:+ other) = false)
  ∧ probed_inputs (trace rv) `prefix_of` videos
  ∧ (result rv = Ret tt → probed_inputs (trace rv) = videos)
  ∧ transcribed_inputs (trace ra) `prefix_of` audios
  ∧ (result ra = Ret tt → transcribed_inputs (trace ra) = audios)
  ∧ Forall (extraction_file_event videos) (trace rv)
  ∧ Forall (transcription_file_event audios) (trace ra).
Proof.
  intros videos audios rv ra.
  split; [intros p; now apply rglob_list_extension|].
  split; [intros p; now apply rglob_list_extension|].
  split; [apply rglob_list_NoDup|]. split; [apply rglob_list_NoDup|].
  split; [intros other stem Hl Hne; now apply glob_star_other|].
  split; [intros other stem Hl Hne; now apply glob_star_other|].
  assert (Hv : probed_inputs (trace rv) `prefix_of` videos
               ∧ (result rv = Ret tt → probed_inputs (trace rv) = videos)).
  { subst rv. unfold process_videos, rglob. rewrite bind_prim. cbn [fst snd].
    cbv zeta. cbn [result trace].
    change (probed_inputs (Ev_rglob vroot "*.mp4" :: ?t)) with (probed_inputs t).
    apply process_videos_loop_probes.
    now apply (rglob_list_mirrors fs vroot ".mp4" ".wav"). }
  assert (Ha : transcribed_inputs (trace ra) `prefix_of` audios
               ∧ (result ra = Ret tt → transcribed_inputs (trace ra) = audios)).
  { subst ra. unfold process_audio_files, rglob. rewrite bind_prim. cbn [fst snd].
    cbv zeta. cbn [result trace].
    change (transcribed_inputs (Ev_rglob aroot "*.wav" :: ?t)) with (transcribed_inputs t).
    apply process_audio_files_loop_transcribes.
    now apply (rglob_list_mirrors fs aroot ".wav" ".txt"). }
  destruct Hv as [Hv1 Hv2], Ha as [Ha1 Ha2].
  repeat split; auto.
  - apply process_videos_file_events.
  - apply process_audio_files_file_events.
Qed.

Lemma selection_by_extension_witness :
  PyStr.glob "*.mp4" ("talk" +:+ ".MP4") = false
  ∧ probed_inputs (trace (@process_videos Sample.tools ["videos"] ["audio"] Sample.fs_tree))
    = Fs.rglob_list Sample.fs_tree ["videos"] "*.mp4".
Proof.
  pose proof (@selection_by_extension Sample.tools ["videos"] ["audio"] ["results"] tt
                Sample.fs_tree) as (_ & _ & _ & _ & Hg & _ & _ & Hp & _).
  split.
  - apply Hg; [reflexivity | discriminate].
  - apply Hp. reflexivity.
Defined.

(** ** The loops as updates of the file system *)

Section LoopEffect.
Context `{Tools}.

Lemma open_w_can_write (p : path) (fs : filesystem) :
  (Fs.open_w p fs).1 = if can_write fs p then Ret tt
                       else match (Fs.open_w p fs).1 with
                            | Ret _ => Ret tt
                            | Raise e => Raise e
                            end.
Proof.
  unfold can_write, Fs.open_w, Fs.is_dir.
  destruct (Fs.stat fs (parent p)) as [[]|]; try reflexivity.
  destruct (Fs.stat fs p) as [[]|]; reflexivity.
Qed.











End LoopEffect.

(** ** C7: running the loops again *)

Section MirrorLoop.
Variable o : string.
Variable produce : option node → option string.
Variable target : path → path.

















End MirrorLoop.

Section Rerun.
Context `{Tools}.













End Rerun.



(** ** C9: the transcription phase takes the whole audio root *)

Section WholeAudioRoot.
Context `{Tools}.



End WholeAudioRoot.


